(** * QuizBot front end: the quiz protocol carried in chat messages

    A shallow embedding of the client-side quiz logic of the QuizBot
    front end:

    - [ChatMessage] (components/ChatMessage.tsx): [parseQuizQuestion],
      [handleOptionClick], the reset effect and the rendered view;
    - [ChatWindow] (components/ChatWindow.tsx): the effect that decides
      whether the stop control is shown;
    - [Home] (app/page.tsx): [loadMessages] and the response handling of
      [handleSendMessage].

    JavaScript strings are sequences of UTF-16 code units; they are
    modelled as lists of [N].  The regular expressions of the source are
    values of a small regex type run by a backtracking matcher with
    greedy quantifiers, as the JavaScript engine runs them. *)

From Stdlib Require Import String Ascii List NArith Bool Arith Lia.
Import ListNotations.
Local Open Scope N_scope.

Set Implicit Arguments.

(* ================================================================== *)
(** ** JavaScript strings *)
(* ================================================================== *)

Module JS.

(** A UTF-16 code unit and a JavaScript string. *)
Definition cu : Type := N.
Definition jsstring : Type := list cu.

(** An ASCII literal of the source, as code units. *)
Definition lit (s : string) : jsstring :=
  map N_of_ascii (list_ascii_of_string s).

(** The two emoji of the protocol, both one code unit:
    U+2705 (white heavy check mark) and U+274C (cross mark). *)
Definition CHECK : cu := 0x2705.
Definition CROSS : cu := 0x274c.
Definition NL : cu := 10.

(** ECMAScript LineTerminator: LF, CR, LS, PS. *)
Definition isLineTerminator (c : cu) : bool :=
  (c =? 0x0a) || (c =? 0x0d) || (c =? 0x2028) || (c =? 0x2029).

(** ECMAScript WhiteSpace + LineTerminator: what [\s] matches and what
    [String.prototype.trim] strips. *)
Definition isSpace (c : cu) : bool :=
  (c =? 0x09) || (c =? 0x0a) || (c =? 0x0b) || (c =? 0x0c) || (c =? 0x0d)
  || (c =? 0x20) || (c =? 0xa0) || (c =? 0x1680)
  || ((0x2000 <=? c) && (c <=? 0x200a))
  || (c =? 0x2028) || (c =? 0x2029) || (c =? 0x202f) || (c =? 0x205f)
  || (c =? 0x3000) || (c =? 0xfeff).

(** Strict equality of two strings. *)
Fixpoint str_eqb (a b : jsstring) : bool :=
  match a, b with
  | [], [] => true
  | x :: a', y :: b' => (x =? y) && str_eqb a' b'
  | _, _ => false
  end.

(** Truthiness of a string: only the empty string is falsy. *)
Definition truthy (s : jsstring) : bool :=
  match s with [] => false | _ :: _ => true end.

(** [s.startsWith(p)] *)
Fixpoint startsWith (p s : jsstring) : bool :=
  match p, s with
  | [], _ => true
  | x :: p', y :: s' => (x =? y) && startsWith p' s'
  | _ :: _, [] => false
  end.

(** [s.includes(p)] *)
Fixpoint includes (p s : jsstring) : bool :=
  startsWith p s ||
  match s with
  | [] => false
  | _ :: s' => includes p s'
  end.

(** [s.trim()] *)
Fixpoint trimStart (s : jsstring) : jsstring :=
  match s with
  | c :: s' => if isSpace c then trimStart s' else s
  | [] => []
  end.

Definition trimEnd (s : jsstring) : jsstring := rev (trimStart (rev s)).

Definition trim (s : jsstring) : jsstring := trimEnd (trimStart s).

(** [s.split('\n')]: always at least one piece. *)
Fixpoint split_nl (s : jsstring) : list jsstring :=
  match s with
  | [] => [[]]
  | c :: s' =>
      if c =? NL then [] :: split_nl s'
      else match split_nl s' with
           | l :: ls => (c :: l) :: ls
           | [] => [[c]]
           end
  end.

(** [lines.join('\n')] *)
Fixpoint join_nl (ls : list jsstring) : jsstring :=
  match ls with
  | [] => []
  | [l] => l
  | l :: ls' => l ++ NL :: join_nl ls'
  end.

(** [s.replace(/\*\*/g, '')]: every occurrence of two asterisks, found
    left to right without overlap, is deleted. *)
Fixpoint removeDoubleStars (s : jsstring) : jsstring :=
  match s with
  | 42 :: 42 :: s' => removeDoubleStars s'
  | c :: s' => c :: removeDoubleStars s'
  | [] => []
  end.

End JS.
Import JS.

(* ================================================================== *)
(** ** Regular expressions *)
(* ================================================================== *)

Module Re.

(** Character classes used by the patterns of the source. *)
Inductive cls : Type :=
| Chr (c : cu)          (* a literal character *)
| Rng (lo hi : cu)      (* [lo-hi] *)
| Space                 (* \s *)
| Dot.                  (* . without the s flag *)

Definition mem (k : cls) (c : cu) : bool :=
  match k with
  | Chr x => c =? x
  | Rng lo hi => (lo <=? c) && (c <=? hi)
  | Space => isSpace c
  | Dot => negb (isLineTerminator c)
  end.

(** Quantifiers, all greedy. *)
Inductive quant : Type := One | Plus | Star.

(** A pattern is a sequence of nodes; a capture group holds one quantified
    class, which is all the source uses. *)
Inductive node : Type :=
| Atom (k : cls) (q : quant)
| Cap (k : cls) (q : quant)
| Bol                   (* ^ without the m flag *)
| Eol.                  (* $ without the m flag *)

Definition regex : Type := list node.

Section Matcher.
Variable R : Type.

(** Greedy [k*]: take one more character when possible and fall back to
    stopping here only when the rest of the pattern fails. [acc] is
    what the quantifier has consumed so far. *)
Fixpoint star (k : cls) (acc : jsstring)
         (cont : jsstring -> jsstring -> option R) (s : jsstring)
  : option R :=
  match s with
  | c :: s' =>
      if mem k c then
        match star k (acc ++ [c]) cont s' with
        | Some r => Some r
        | None => cont acc s
        end
      else cont acc s
  | [] => cont acc s
  end.

Definition rep (k : cls) (q : quant)
           (cont : jsstring -> jsstring -> option R) (s : jsstring)
  : option R :=
  match q with
  | One => match s with
           | c :: s' => if mem k c then cont [c] s' else None
           | [] => None
           end
  | Plus => match s with
            | c :: s' => if mem k c then star k [c] cont s' else None
            | [] => None
            end
  | Star => star k [] cont s
  end.
End Matcher.

Definition isnil (s : jsstring) : bool :=
  match s with [] => true | _ => false end.

(** Match the pattern at the current position. [at0] says that the
    current position is index 0 of the input; the result is the list of
    captured groups, in order. *)
Fixpoint run (re : regex) (at0 : bool) (caps : list jsstring) (s : jsstring)
  : option (list jsstring) :=
  match re with
  | [] => Some caps
  | Bol :: re' => if at0 then run re' at0 caps s else None
  | Eol :: re' => match s with
                  | [] => run re' at0 caps s
                  | _ :: _ => None
                  end
  | Atom k q :: re' =>
      rep k q (fun used rest => run re' (at0 && isnil used) caps rest) s
  | Cap k q :: re' =>
      rep k q (fun used rest =>
                 run re' (at0 && isnil used) (caps ++ [used]) rest) s
  end.

(** Try every start position, leftmost first. *)
Fixpoint search (re : regex) (at0 : bool) (s : jsstring)
  : option (list jsstring) :=
  match run re at0 [] s with
  | Some c => Some c
  | None => match s with
            | [] => None
            | _ :: s' => search re false s'
            end
  end.

(** [s.match(re)] for a pattern without the g flag: the capture groups of
    the leftmost match, or [None] for null. *)
Definition exec (re : regex) (s : jsstring) : option (list jsstring) :=
  search re true s.

(** [re.test(s)] on a fresh pattern object (lastIndex is 0, so the g flag
    makes no difference). *)
Definition test (re : regex) (s : jsstring) : bool :=
  match exec re s with Some _ => true | None => false end.

(** [m[i]] for [i >= 1] of a successful match. *)
Definition group (i : nat) (caps : list jsstring) : jsstring :=
  nth (i - 1) caps [].

(** A literal run of characters inside a pattern. *)
Definition chars (s : jsstring) : regex :=
  map (fun c => Atom (Chr c) One) s.

End Re.
Import Re.

(* ================================================================== *)
(** ** Types (types/index.ts) *)
(* ================================================================== *)

Inductive MessageRole : Type := USER | ASSISTANT | SYSTEM.

Definition role_eqb (a b : MessageRole) : bool :=
  match a, b with
  | USER, USER | ASSISTANT, ASSISTANT | SYSTEM, SYSTEM => true
  | _, _ => false
  end.

(** [content] is declared [string]; the [typeof] guards of the source
    are the identity on it. *)
Record Message : Type := mkMessage {
  id : jsstring;
  chat_id : jsstring;
  role : MessageRole;
  content : jsstring;
  timestamp : jsstring
}.

(* ================================================================== *)
(** ** ChatMessage: parseQuizQuestion *)
(* ================================================================== *)

Module ChatMessage.

Inductive Status : Type := correct | incorrect | normal.

Record QuizOption : Type := mkOption {
  letter : jsstring;
  text : jsstring;
  status : Status
}.

Record QuizData : Type := mkQuizData {
  question : jsstring;
  options : list QuizOption;
  feedback : jsstring;
  isAnswered : bool;
  correctAnswerLetter : jsstring
}.

(** The patterns of [parseQuizQuestion]. *)

(* /[A-D]\.\s+.+/g *)
Definition re_hasOptions : regex :=
  [Atom (Rng 65 68) One; Atom (Chr 46) One; Atom Space Plus; Atom Dot Plus].

(* /\[CORRECT:([A-D])\]/ *)
Definition re_marker : regex :=
  chars (lit "[CORRECT:") ++ [Cap (Rng 65 68) One; Atom (Chr 93) One].

(* /^✅\s*([A-D])\.\s+(.+)$/ and /^❌\s*([A-D])\.\s+(.+)$/ *)
Definition re_marked (mark : cu) : regex :=
  [Bol; Atom (Chr mark) One; Atom Space Star; Cap (Rng 65 68) One;
   Atom (Chr 46) One; Atom Space Plus; Cap Dot Plus; Eol].

(* /^([A-D])\.\s+(.+)$/ *)
Definition re_normal : regex :=
  [Bol; Cap (Rng 65 68) One; Atom (Chr 46) One; Atom Space Plus;
   Cap Dot Plus; Eol].

(** [a || b] on match results: [b] is evaluated only when [a] is null. *)
Definition orElse (A : Type) (a b : option A) : option A :=
  match a with Some _ => a | None => b end.

(** The local variables of the line loop. *)
Record Scan : Type := mkScan {
  questionLines : list jsstring;
  s_options : list QuizOption;
  feedbackMessage : jsstring;
  s_isAnswered : bool;
  s_correctAnswerLetter : jsstring;
  foundOptions : bool
}.

Definition scan0 : Scan := mkScan [] [] [] false [] false.

Definition pushOption (st : Scan) (o : QuizOption) : Scan :=
  mkScan (questionLines st) (s_options st ++ [o]) (feedbackMessage st)
         (s_isAnswered st) (s_correctAnswerLetter st) true.

Definition isFeedbackLine (trimmedLine : jsstring) : bool :=
  includes (CHECK :: lit " Correct") trimmedLine
  || includes (CROSS :: lit " Incorrect") trimmedLine.

Definition isFooterLine (trimmedLine : jsstring) : bool :=
  includes (lit "Type your answer") trimmedLine
  || includes (lit "or 'stop' to end") trimmedLine.

(** The option branches of the loop body (the if / else-if chain). *)
Definition optionStep (st : Scan) (line trimmedLine : jsstring) : Scan :=
  let correctMatch :=
    orElse (exec (re_marked CHECK) trimmedLine) (exec (re_marked CHECK) line) in
  let incorrectMatch :=
    orElse (exec (re_marked CROSS) trimmedLine) (exec (re_marked CROSS) line) in
  let normalMatch := exec re_normal trimmedLine in
  match correctMatch with
  | Some m => pushOption st (mkOption (group 1 m) (trim (group 2 m)) correct)
  | None =>
  match incorrectMatch with
  | Some m => pushOption st (mkOption (group 1 m) (trim (group 2 m)) incorrect)
  | None =>
  match normalMatch with
  | Some m =>
      if negb (startsWith [CHECK] trimmedLine)
         && negb (startsWith [CROSS] trimmedLine)
      then pushOption st (mkOption (group 1 m) (trim (group 2 m)) normal)
      else if negb (foundOptions st) && truthy trimmedLine
      then mkScan (questionLines st ++ [line]) (s_options st)
                  (feedbackMessage st) (s_isAnswered st)
                  (s_correctAnswerLetter st) (foundOptions st)
      else st
  | None =>
      if negb (foundOptions st) && truthy trimmedLine
      then mkScan (questionLines st ++ [line]) (s_options st)
                  (feedbackMessage st) (s_isAnswered st)
                  (s_correctAnswerLetter st) (foundOptions st)
      else st
  end end end.

(** One iteration of [for (const line of lines)]. *)
Definition scanLine (st : Scan) (line : jsstring) : Scan :=
  let trimmedLine := trim line in
  match exec re_marker trimmedLine with
  | Some m =>
      mkScan (questionLines st) (s_options st) (feedbackMessage st)
             (s_isAnswered st) (group 1 m) (foundOptions st)
  | None =>
      if isFeedbackLine trimmedLine then
        mkScan (questionLines st) (s_options st)
               (removeDoubleStars trimmedLine) true
               (s_correctAnswerLetter st) (foundOptions st)
      else if isFooterLine trimmedLine then st
      else optionStep st line trimmedLine
  end.

Definition scanLines (lines : list jsstring) : Scan :=
  fold_left scanLine lines scan0.

Definition hasOptions (content : jsstring) : bool :=
  test re_hasOptions content.

Definition parseQuizQuestion (isUser : bool) (content : jsstring)
  : option QuizData :=
  if negb (hasOptions content) || isUser then None
  else
    let st := scanLines (split_nl content) in
    if (length (s_options st) =? 4)%nat then
      Some (mkQuizData (join_nl (questionLines st)) (s_options st)
                       (feedbackMessage st) (s_isAnswered st)
                       (s_correctAnswerLetter st))
    else None.

(** *** Component state and handlers *)

Record InstantFeedback : Type := mkInstant {
  selectedLetter : jsstring;
  isCorrect : bool;
  correctLetter : jsstring
}.

(** The two [useState] cells of the component. *)
Record State : Type := mkState {
  selectedAnswer : option jsstring;
  instantFeedback : option InstantFeedback
}.

Definition state0 : State := mkState None None.

(** What a handler can touch: the state cells and the calls it makes to
    the [onSendMessage] prop, oldest first. *)
Record World : Type := mkWorld {
  cells : State;
  sent : list jsstring
}.

Definition world0 : World := mkWorld state0 [].

(** Handlers run in a state monad over [World]. *)
Definition Handler (A : Type) : Type := World -> A * World.

Definition ret (A : Type) (a : A) : Handler A := fun w => (a, w).

Definition bind (A B : Type) (h : Handler A) (k : A -> Handler B)
  : Handler B :=
  fun w => let (a, w') := h w in k a w'.

Notation "x <- h ;; k" := (bind h (fun x => k))
  (at level 61, h at next level, right associativity).
Notation "h ;; k" := (bind h (fun _ => k))
  (at level 61, right associativity).

Definition readState : Handler State := fun w => (cells w, w).

Definition setSelectedAnswer (v : option jsstring) : Handler unit :=
  fun w => (tt, mkWorld (mkState v (instantFeedback (cells w))) (sent w)).

Definition setInstantFeedback (v : option InstantFeedback) : Handler unit :=
  fun w => (tt, mkWorld (mkState (selectedAnswer (cells w)) v) (sent w)).

Definition callOnSendMessage (c : jsstring) : Handler unit :=
  fun w => (tt, mkWorld (cells w) (sent w ++ [c])).

Definition exec_handler (h : Handler unit) (w : World) : World := snd (h w).

(** Truthiness of a [string | null] value. *)
Definition truthy_opt (v : option jsstring) : bool :=
  match v with Some s => truthy s | None => false end.

(** The props of the component; [onSendMessage] is optional and the flag
    says whether the parent passed it. *)
Record Props : Type := mkProps {
  message : Message;
  onSendMessage : bool
}.

Definition isUser (p : Props) : bool := role_eqb (role (message p)) USER.

Definition safeContent (p : Props) : jsstring := content (message p).

Definition quizData (p : Props) : option QuizData :=
  parseQuizQuestion (isUser p) (safeContent p).

Definition handleOptionClick (p : Props) (letter correctAnswer : jsstring)
  : Handler unit :=
  st <- readState ;;
  if onSendMessage p && negb (truthy_opt (selectedAnswer st))
     && truthy correctAnswer
  then
    let isCorrect := str_eqb letter correctAnswer in
    setInstantFeedback (Some (mkInstant letter isCorrect correctAnswer)) ;;
    setSelectedAnswer (Some letter) ;;
    callOnSendMessage letter
  else ret tt.

(** The body of the effect with dependency [quizData?.isAnswered]. *)
Definition resetEffect (q : option QuizData) : Handler unit :=
  match q with
  | Some d => if isAnswered d then setInstantFeedback None else ret tt
  | None => ret tt
  end.

(** [quizData?.isAnswered]: [None] is undefined. *)
Definition depIsAnswered (q : option QuizData) : option bool :=
  match q with Some d => Some (isAnswered d) | None => None end.

(** *** The rendered view *)

Inductive Badge : Type := BadgeCorrect | BadgeWrong.

(** The source of a badge: the optimistic overlay or the stored message. *)
Inductive Origin : Type := Instant | Backend.

Record Button : Type := mkButton {
  b_letter : jsstring;
  b_text : jsstring;
  b_status : Status;
  b_disabled : bool;
  b_badges : list (Origin * Badge)
}.

Inductive View : Type :=
| TextView (txt : jsstring)
| QuizView (q_text : jsstring) (buttons : list Button)
           (instantLine backendLine : option jsstring).

Definition buttonStatus (d : QuizData) (st : State) (o : QuizOption)
  : Status :=
  match instantFeedback st with
  | Some f =>
      if negb (isAnswered d) then
        if str_eqb (letter o) (selectedLetter f) then
          if isCorrect f then correct else incorrect
        else if str_eqb (letter o) (correctLetter f) then correct
        else status o
      else status o
  | None => status o
  end.

Definition when (A : Type) (b : bool) (a : A) : list A :=
  if b then [a] else [].

Definition is_status (a b : Status) : bool :=
  match a, b with
  | correct, correct | incorrect, incorrect | normal, normal => true
  | _, _ => false
  end.

Definition badges (d : QuizData) (st : State) (o : QuizOption)
  : list (Origin * Badge) :=
  let overlay (test : InstantFeedback -> bool) : bool :=
    match instantFeedback st with
    | Some f => negb (isAnswered d) && test f
    | None => false
    end in
  when (overlay (fun f => str_eqb (letter o) (selectedLetter f) && isCorrect f))
       (Instant, BadgeCorrect)
  ++ when (overlay (fun f => str_eqb (letter o) (selectedLetter f)
                             && negb (isCorrect f)))
          (Instant, BadgeWrong)
  ++ when (overlay (fun f => str_eqb (letter o) (correctLetter f)
                             && negb (str_eqb (letter o) (selectedLetter f))))
          (Instant, BadgeCorrect)
  ++ when (is_status (buttonStatus d st o) correct && isAnswered d)
          (Backend, BadgeCorrect)
  ++ when (is_status (buttonStatus d st o) incorrect && isAnswered d)
          (Backend, BadgeWrong).

Definition isNull (v : option jsstring) : bool :=
  match v with None => true | Some _ => false end.

Definition renderOption (d : QuizData) (st : State) (o : QuizOption)
  : Button :=
  mkButton (letter o) (text o) (buttonStatus d st o)
           (isAnswered d || negb (isNull (selectedAnswer st)))
           (badges d st o).

Definition instantMessage (d : QuizData) (st : State) : option jsstring :=
  match instantFeedback st with
  | Some f =>
      if negb (isAnswered d) then
        Some (if isCorrect f then CHECK :: lit " Correct!"
              else CROSS :: lit " Incorrect. The correct answer is "
                   ++ correctLetter f ++ lit ".")
      else None
  | None => None
  end.

Definition backendMessage (d : QuizData) : option jsstring :=
  if truthy (feedback d) then Some (feedback d) else None.

(** The body of the message bubble (the header shows the role label and
    the time of the message, neither of which depends on the content). *)
Definition render (p : Props) (st : State) : View :=
  match quizData p with
  | Some d =>
      QuizView (question d) (map (renderOption d st) (options d))
               (instantMessage d st) (backendMessage d)
  | None => TextView (safeContent p)
  end.

(** The icon and the label of a badge. *)
Definition badgeText (b : Badge) : list jsstring :=
  match b with
  | BadgeCorrect => [[0x2713]; lit "CORRECT!"]
  | BadgeWrong => [lit "X"; lit "WRONG"]
  end.

Definition optText (v : option jsstring) : list jsstring :=
  match v with Some s => [s] | None => [] end.

(** Every text node of the view, in document order. *)
Definition viewTexts (v : View) : list jsstring :=
  match v with
  | TextView t => [t]
  | QuizView q bs i b =>
      q :: flat_map (fun x => b_letter x :: b_text x
                              :: flat_map (fun ob => badgeText (snd ob))
                                          (b_badges x)) bs
        ++ optText i ++ optText b
  end.

(** The [onClick] of the button of option [o]; a disabled button
    dispatches no click. *)
Definition clickOption (p : Props) (d : QuizData) (o : QuizOption)
  : Handler unit :=
  st <- readState ;;
  if b_disabled (renderOption d st o) then ret tt
  else if negb (isAnswered d) && negb (truthy_opt (selectedAnswer st))
  then handleOptionClick p (letter o) (correctAnswerLetter d)
  else ret tt.

End ChatMessage.
Import ChatMessage.

(* ================================================================== *)
(** ** ChatWindow: is a quiz running? *)
(* ================================================================== *)

Module ChatWindow.

(** The state cells the effect writes. *)
Record State : Type := mkState {
  isQuizActive : bool;
  showSuccess : bool
}.

Definition state0 : State := mkState false false.

(* /[A-D]\.\ .+/ *)
Definition re_quizQuestion : regex :=
  [Atom (Rng 65 68) One; Atom (Chr 46) One; Atom (Chr 32) One; Atom Dot Plus].

(** [messages[messages.length - 1]] *)
Definition lastMessage (messages : list Message) : option Message :=
  nth_error messages (List.length messages - 1).

(** The effect that runs when [messages] changes. *)
Definition detectQuiz (messages : list Message) (st : State) : State :=
  if (0 <? List.length messages)%nat then
    match lastMessage messages with
    | Some m =>
        if role_eqb (role m) ASSISTANT then
          let hasQuizQuestion :=
            test re_quizQuestion (content m)
            && (includes (lit "Assessment") (content m)
                || includes (lit "Question") (content m)) in
          let isQuizComplete := includes (lit "Quiz Complete") (content m) in
          mkState (hasQuizQuestion && negb isQuizComplete)
                  (if includes (CHECK :: lit " Correct!") (content m)
                   then true else showSuccess st)
        else st
    | None => st
    end
  else mkState false (showSuccess st).

(** The stop control is rendered exactly when [isQuizActive] holds. *)
Definition stopControlShown (st : State) : bool := isQuizActive st.

End ChatWindow.

(* ================================================================== *)
(** ** Home: loading the messages of a chat *)
(* ================================================================== *)

Module Home.

Record SendMessageResponse : Type := mkResponse {
  user_message : Message;
  bot_message : Message;
  is_quiz_answer : bool
}.

(** The filter and map chain of [loadMessages]. The [_renderKey] field
    that the map adds (the id and the wall clock) plays no part in what
    is displayed and is left out. *)
Definition sanitized (chatMessages : list Message) : list Message :=
  map (fun msg => mkMessage (id msg) (chat_id msg) (role msg)
                            (content msg) (timestamp msg))
      (filter (fun msg => negb (startsWith (lit "FEEDBACK:") (content msg)))
              chatMessages).

(** [loadMessages]: [fetched] is the outcome of
    [apiService.getChatMessages], [None] when it throws; the result is
    the new value of the [messages] cell. *)
Definition loadMessages (fetched : option (list Message))
           (messages : list Message) : list Message :=
  match fetched with
  | Some chatMessages => sanitized chatMessages
  | None => messages
  end.

(** The success path of [handleSendMessage] after the response has
    arrived; [fetched] is the outcome of the reload it may trigger. *)
Definition handleResponse (response : SendMessageResponse)
           (fetched : option (list Message)) (messages : list Message)
  : list Message :=
  let isFeedback :=
    startsWith (lit "FEEDBACK:") (content (bot_message response))
    || is_quiz_answer response in
  if isFeedback then loadMessages fetched messages
  else messages ++ [user_message response; bot_message response].

End Home.

(* ================================================================== *)
(** ** Shapes of lines and messages used in the statements *)
(* ================================================================== *)

(** The class [[A-D]]. *)
Definition isLetter (L : cu) : bool := mem (Rng 65 68) L.

(** The shape of a marked option line: the mark, optional white space,
    the letter, a full stop, white space, and text up to the end. *)
Definition marked_form (mark : cu) (s : jsstring) (L : cu) (txt : jsstring)
  : Prop :=
  exists ws0 ws1,
    s = mark :: ws0 ++ L :: 46 :: ws1 ++ txt
    /\ forallb isSpace ws0 = true /\ isLetter L = true
    /\ ws1 <> [] /\ forallb isSpace ws1 = true
    /\ txt <> [] /\ forallb (mem Dot) txt = true.

(** The shape of a plain option line. *)
Definition plain_form (s : jsstring) (L : cu) (txt : jsstring) : Prop :=
  exists ws1,
    s = L :: 46 :: ws1 ++ txt
    /\ isLetter L = true
    /\ ws1 <> [] /\ forallb isSpace ws1 = true
    /\ txt <> [] /\ forallb (mem Dot) txt = true.


(** Where an option comes from: the line, or the trimmed line, has one
    of the three option shapes and the option carries its letter, its
    trimmed text and the status of the shape. *)
Inductive option_of (line : jsstring) : QuizOption -> Prop :=
| of_correct s L txt :
    s = trim line \/ s = line -> marked_form CHECK s L txt ->
    option_of line (mkOption [L] (trim txt) correct)
| of_incorrect s L txt :
    s = trim line \/ s = line -> marked_form CROSS s L txt ->
    option_of line (mkOption [L] (trim txt) incorrect)
| of_normal L txt :
    plain_form (trim line) L txt ->
    option_of line (mkOption [L] (trim txt) normal).

(** A line that none of the first three branches of the loop consumes. *)
Definition reachesOptions (line : jsstring) : Prop :=
  exec re_marker (trim line) = None
  /\ isFeedbackLine (trim line) = false
  /\ isFooterLine (trim line) = false.

(** What one iteration of the loop can do to its variables. *)
Inductive scan_step (st : Scan) (line : jsstring) : Scan -> Prop :=
| step_marker m :
    exec re_marker (trim line) = Some m ->
    scan_step st line
      (mkScan (questionLines st) (s_options st) (feedbackMessage st)
              (s_isAnswered st) (group 1 m) (foundOptions st))
| step_feedback :
    exec re_marker (trim line) = None ->
    isFeedbackLine (trim line) = true ->
    scan_step st line
      (mkScan (questionLines st) (s_options st)
              (removeDoubleStars (trim line)) true
              (s_correctAnswerLetter st) (foundOptions st))
| step_option o :
    reachesOptions line -> option_of line o ->
    scan_step st line (pushOption st o)
| step_question :
    reachesOptions line ->
    foundOptions st = false -> trim line <> [] ->
    scan_step st line
      (mkScan (questionLines st ++ [line]) (s_options st)
              (feedbackMessage st) (s_isAnswered st)
              (s_correctAnswerLetter st) (foundOptions st))
| step_skip :
    exec re_marker (trim line) = None ->
    isFeedbackLine (trim line) = false ->
    scan_step st line st.

(** The hidden marker for the letter [L], and a string that holds one. *)
Definition marker (L : cu) : jsstring := lit "[CORRECT:" ++ [L; 93].

Definition hasMarker (s : jsstring) : Prop :=
  exists pre L post, isLetter L = true /\ s = pre ++ marker L ++ post.

(** A string that holds, anywhere, a letter A to D, a full stop, one or
    more white-space characters and one more character that is not a
    line terminator. *)
Definition optionPattern (s : jsstring) : Prop :=
  exists pre L ws c post,
    s = pre ++ L :: 46 :: ws ++ c :: post
    /\ isLetter L = true /\ ws <> [] /\ forallb isSpace ws = true
    /\ isLineTerminator c = false.

(** The message passes the guard at the head of [parseQuizQuestion]. *)
Definition detected (p : Props) : bool :=
  negb (negb (hasOptions (safeContent p)) || isUser p).

(** The detection rule in the words of the specification: some line
    matches the line-anchored pattern [^[A-D]\.\s+.+] and the role is
    [assistant]. *)
Definition re_lineOption : regex :=
  [Bol; Atom (Rng 65 68) One; Atom (Chr 46) One; Atom Space Plus;
   Atom Dot Plus].

Definition spec_detected (m : Message) : bool :=
  existsb (test re_lineOption) (split_nl (content m))
  && role_eqb (role m) ASSISTANT.

(** A line that the feedback branch of the loop consumes. *)
Definition isFeedbackOnly (line : jsstring) : bool :=
  match exec re_marker (trim line) with
  | Some _ => false
  | None => isFeedbackLine (trim line)
  end.

(** What the loop has established about its variables after the lines
    [lines]: every question line and every option comes from a line that
    reached the option branches. *)
Definition scan_inv (lines : list jsstring) (st : Scan) : Prop :=
  Forall (fun l => In l lines /\ reachesOptions l) (questionLines st)
  /\ Forall (fun o => exists l, In l lines /\ reachesOptions l
                                /\ option_of l o) (s_options st).

(* ================================================================== *)
(** ** The life of a ChatMessage instance *)
(* ================================================================== *)

Module Instance.

(** A mounted component: its props, its cells with the calls made so
    far, and the value [quizData?.isAnswered] had when the effect last
    looked at it. *)
Record Instance : Type := mkInstance {
  props : Props;
  world : World;
  lastDep : option bool
}.

(** [Object.is] on the dependency. *)
Definition dep_eqb (a b : option bool) : bool :=
  match a, b with
  | None, None => true
  | Some x, Some y => Bool.eqb x y
  | _, _ => false
  end.

(** The first render: fresh cells, then the effect. *)
Definition mount (p : Props) : Instance :=
  mkInstance p (exec_handler (resetEffect (quizData p)) world0)
             (depIsAnswered (quizData p)).

Inductive Event : Type :=
| Click (n : nat)          (* a click on the n-th option button *)
| Update (m : Message).    (* the parent passes a new message *)

(** One event, the render that follows it, and the effect when its
    dependency has changed. *)
Definition step (i : Instance) (e : Event) : Instance :=
  match e with
  | Click n =>
      match quizData (props i) with
      | Some d =>
          match nth_error (options d) n with
          | Some o =>
              mkInstance (props i)
                         (exec_handler (clickOption (props i) d o) (world i))
                         (lastDep i)
          | None => i
          end
      | None => i
      end
  | Update m =>
      let p := mkProps m (onSendMessage (props i)) in
      let dep := depIsAnswered (quizData p) in
      mkInstance p
                 (if dep_eqb dep (lastDep i) then world i
                  else exec_handler (resetEffect (quizData p)) (world i))
                 dep
  end.

Definition run_events (i : Instance) (es : list Event) : Instance :=
  fold_left step es i.

End Instance.

(** Clicks on options of one displayed question, one after the other. *)
Definition clicks (p : Props) (d : QuizData) (os : list QuizOption)
           (w : World) : World :=
  fold_left (fun w o => exec_handler (clickOption p d o) w) os w.

(* ================================================================== *)
(** ** Sample messages *)
(* ================================================================== *)

Definition msg (r : MessageRole) (body : jsstring) : Message :=
  mkMessage (lit "m1") (lit "c1") r body (lit "2025-01-01T00:00:00Z").

Definition withSend (m : Message) : Props := mkProps m true.

(** An unanswered question as the server stores it. *)
Definition body_question : jsstring :=
  lit "What is 2+2?
A. 3
B. 4
C. 5
D. 6
[CORRECT:B]".

(** The same question without the hidden marker. *)
Definition body_unmarked : jsstring :=
  lit "What is 2+2?
A. 3
B. 4
C. 5
D. 6".

(** The same question after the answer A. *)
Definition body_answered : jsstring :=
  lit "What is 2+2?
" ++ CROSS :: lit " A. 3
" ++ CHECK :: lit " B. 4
C. 5
D. 6
[CORRECT:B]
**" ++ CROSS :: lit " Incorrect. The correct answer is B.**".

(** A generated question that lost an option. *)
Definition body_three : jsstring :=
  lit "What is 2+2?
A. 3
B. 4
C. 5
[CORRECT:B]".

(** Four options, each indented by one space. *)
Definition body_indented : jsstring :=
  lit " A. 3
 B. 4
 C. 5
 D. 6".

(** A feedback line that also carries the marker. *)
Definition body_feedback_marker : jsstring :=
  lit "What is 2+2?
A. 3
B. 4
C. 5
D. 6
" ++ CHECK :: lit " Correct! [CORRECT:B]".

Definition body_complete : jsstring := lit "Quiz Complete! You scored 4/5.".

Definition optA : QuizOption := mkOption (lit "A") (lit "3") normal.
Definition optB : QuizOption := mkOption (lit "B") (lit "4") normal.
Definition optC : QuizOption := mkOption (lit "C") (lit "5") normal.
Definition optD : QuizOption := mkOption (lit "D") (lit "6") normal.

Definition quiz_question : QuizData :=
  mkQuizData (lit "What is 2+2?") [optA; optB; optC; optD] [] false (lit "B").

(** The lock and the outbox go together. *)
Definition sent_inv (i : Instance.Instance) : Prop :=
  (selectedAnswer (cells (Instance.world i)) = None /\ sent (Instance.world i) = [])
  \/ (selectedAnswer (cells (Instance.world i)) <> None
      /\ List.length (sent (Instance.world i)) = 1%nat).


(** The effect has seen the current dependency, and an answered question
    has no overlay. *)
Definition overlay_inv (i : Instance.Instance) : Prop :=
  Instance.lastDep i = depIsAnswered (quizData (Instance.props i))
  /\ (Instance.lastDep i = Some true -> instantFeedback (cells (Instance.world i)) = None).


(** The text nodes of a view that hold a string. *)
Definition showsText (needle : jsstring) (v : View) : bool :=
  existsb (includes needle) (viewTexts v).

(** A stored feedback line in bold. *)
Definition body_bold_feedback : jsstring :=
  lit "What is 2+2?
A. 3
" ++ CHECK :: lit " B. 4
C. 5
D. 6
[CORRECT:B]
**" ++ CHECK :: lit " Correct!**".

(** A last question that also announces the end of the quiz. *)
Definition body_last_question : jsstring :=
  lit "Question 5: Quiz Complete after this one
A. 3
B. 4
C. 5
D. 6
[CORRECT:B]".

(** A protocol message of the answer channel. *)
Definition feedback_message : Message :=
  msg ASSISTANT (lit "FEEDBACK:correct").

(** A message that is displayed after a load. *)
Definition keep (m : Message) : bool :=
  negb (startsWith (lit "FEEDBACK:") (content m)).

(** A feedback line whose asterisks split a marker. *)
Definition body_split_marker : jsstring :=
  lit "What is 2+2?
A. 3
B. 4
C. 5
D. 6
[COR**RECT:B] " ++ CHECK :: lit " Correct!".

(* ================================================================== *)
(** ** Further shapes used in the statements *)
(* ================================================================== *)

(** A line the loop passes over: it is blank, or it is a prompt line
    without a marker and without the feedback phrase. *)
Definition ignoredLine (x : jsstring) : Prop :=
  trim x = []
  \/ (~ hasMarker x /\ isFeedbackLine (trim x) = false
      /\ isFooterLine (trim x) = true).

(** The prompt the server puts under a question. *)
Definition footer_line : jsstring :=
  lit "Type your answer (A, B, C, or D) or 'stop' to end the quiz.".

(* ================================================================== *)
(** ** Further string operations *)
(* ================================================================== *)

(** [s.endsWith(p)] *)
Definition endsWith (p s : jsstring) : bool := startsWith (rev p) (rev s).

(** [ls.join(sep)] *)
Fixpoint join (sep : jsstring) (ls : list jsstring) : jsstring :=
  match ls with
  | [] => []
  | [l] => l
  | l :: ls' => l ++ sep ++ join sep ls'
  end.

From Stdlib Require DecimalString.
From Stdlib Require Import ZArith.

(** The decimal digits of a number that is a non-negative integer, as
    the template literals of the source print it. *)
Definition decimal (n : N) : jsstring :=
  lit (DecimalString.NilEmpty.string_of_uint (N.to_uint n)).

(* ================================================================== *)
(** ** ChatWindow: the mounted messages *)
(* ================================================================== *)

Module MessageList.

(** The key ChatWindow gives the component of a message: its id, its
    index and the first 50 characters of its content. *)
Definition key (index : nat) (m : Message) : jsstring :=
  id m ++ lit "-" ++ decimal (N.of_nat index) ++ lit "-"
  ++ firstn 50 (content m).

(** The mounted components by key, in the order of the list, and the
    letters they have passed to [onSendMessage] of the window. *)
Record Window : Type := mkWindow {
  children : list (jsstring * Instance.Instance);
  forwarded : list jsstring
}.

Definition window0 : Window := mkWindow [] [].

Fixpoint find (k : jsstring) (cs : list (jsstring * Instance.Instance))
  : option Instance.Instance :=
  match cs with
  | [] => None
  | (k', i) :: cs' => if str_eqb k' k then Some i else find k cs'
  end.

(** The children of a render of [messages.map]: a component whose key
    was there in the render before keeps its cells and receives the
    message; any other is mounted, with fresh cells. The components
    whose key is gone are unmounted, and all of them are when the list
    is empty. *)
Fixpoint renderFrom (old : list (jsstring * Instance.Instance))
         (index : nat) (ms : list Message)
  : list (jsstring * Instance.Instance) :=
  match ms with
  | [] => []
  | m :: ms' =>
      (key index m,
       match find (key index m) old with
       | Some i => Instance.step i (Instance.Update m)
       | None => Instance.mount (mkProps m true)
       end) :: renderFrom old (S index) ms'
  end.

Fixpoint setChild (index : nat) (c : jsstring * Instance.Instance)
         (cs : list (jsstring * Instance.Instance))
  : list (jsstring * Instance.Instance) :=
  match cs, index with
  | [], _ => []
  | _ :: cs', O => c :: cs'
  | c' :: cs', S n => c' :: setChild n c cs'
  end.

Inductive Event : Type :=
| Render (messages : list Message)   (* the page passes a list *)
| Click (index n : nat).             (* a click on the n-th option of
                                        the message at [index] *)

Definition step (w : Window) (e : Event) : Window :=
  match e with
  | Render ms => mkWindow (renderFrom (children w) 0 ms) (forwarded w)
  | Click index n =>
      match nth_error (children w) index with
      | Some (k, i) =>
          let i' := Instance.step i (Instance.Click n) in
          mkWindow (setChild index (k, i') (children w))
                   (forwarded w
                    ++ skipn (List.length (sent (Instance.world i)))
                             (sent (Instance.world i')))
      | None => w
      end
  end.

Definition run_events (w : Window) (es : list Event) : Window :=
  fold_left step es w.

End MessageList.




(* ================================================================== *)
(** ** localStorage *)
(* ================================================================== *)

Module Storage.

(** The stored pairs; a key occurs once at most in a store built from
    the empty one by [setItem] and [removeItem]. *)
Definition Storage : Type := list (jsstring * jsstring).

Fixpoint getItem (k : jsstring) (s : Storage) : option jsstring :=
  match s with
  | [] => None
  | (k', v) :: s' => if str_eqb k' k then Some v else getItem k s'
  end.

Definition removeItem (k : jsstring) (s : Storage) : Storage :=
  filter (fun kv => negb (str_eqb (fst kv) k)) s.

Definition setItem (k v : jsstring) (s : Storage) : Storage :=
  (k, v) :: removeItem k s.

End Storage.

(* ================================================================== *)
(** ** lib/utils.ts *)
(* ================================================================== *)

Module Utils.

(** The formatting of [formatDate]. The argument is what [getHours] and
    [getMinutes] return for the parsed date: [None] when the date is
    invalid and both are NaN. *)
Definition formatClock (fields : option (N * N)) : jsstring :=
  match fields with
  | Some (hours, minutes) =>
      let ampm := if 12 <=? hours then lit "PM" else lit "AM" in
      let displayHours := if hours mod 12 =? 0 then 12 else hours mod 12 in
      let displayMinutes :=
        if minutes <? 10 then lit "0" ++ decimal minutes
        else decimal minutes in
      decimal displayHours ++ lit ":" ++ displayMinutes ++ lit " " ++ ampm
  | None => lit "12:NaN AM"
  end.

Section FormatDate.
(** [new Date(dateString)] read in the local time zone. *)
Variable dateFields : jsstring -> option (N * N).

Definition formatDate (dateString : jsstring) : jsstring :=
  formatClock (dateFields dateString).
End FormatDate.

(** [getUserId]: [browser] says that [window] is defined, [rnd] is what
    [Math.random().toString(36).substr(2, 9)] gives when it is read. *)
Definition getUserId (browser : bool) (rnd : jsstring)
           (ls : Storage.Storage) : jsstring * Storage.Storage :=
  if negb browser then (lit "user_temp", ls)
  else
    let fresh := lit "user_" ++ rnd in
    let generated := (fresh, Storage.setItem (lit "user_id") fresh ls) in
    match Storage.getItem (lit "user_id") ls with
    | Some userId => if truthy userId then (userId, ls) else generated
    | None => generated
    end.

(** [truncateText]; [maxLength] is an integer. *)
Definition truncateText (text : jsstring) (maxLength : Z) : jsstring :=
  if (Z.of_nat (List.length text) <=? maxLength)%Z then text
  else firstn (Z.to_nat maxLength) text ++ lit "...".

End Utils.

(* ================================================================== *)
(** ** services/api.ts: the stored session *)
(* ================================================================== *)

Module Api.
Import Storage.

(** What [login] and [signup] do with a successful response; the user
    object is carried as its JSON text. *)
Definition storeSession (token userJson : jsstring) (ls : Storage)
  : Storage :=
  if truthy token
  then setItem (lit "user") userJson (setItem (lit "auth_token") token ls)
  else ls.

Definition logout (ls : Storage) : Storage :=
  removeItem (lit "user") (removeItem (lit "auth_token") ls).

Definition isAuthenticated (ls : Storage) : bool :=
  truthy_opt (getItem (lit "auth_token") ls).

(** [getCurrentUser]: the JSON text that is parsed, [None] for null. *)
Definition getCurrentUser (ls : Storage) : option jsstring :=
  match getItem (lit "user") ls with
  | Some userStr => if truthy userStr then Some userStr else None
  | None => None
  end.

(** The request interceptor: the Authorization header it adds. *)
Definition authorization (ls : Storage) : option jsstring :=
  match getItem (lit "auth_token") ls with
  | Some token => if truthy token then Some (lit "Bearer " ++ token) else None
  | None => None
  end.

End Api.

(* ================================================================== *)
(** ** ChatInput *)
(* ================================================================== *)

Module ChatInput.

(** The [message] cell and the calls made to [onSendMessage]. *)
Record World : Type := mkWorld {
  message : jsstring;
  sent : list jsstring
}.

Definition handleSend (disabled : bool) (w : World) : World :=
  if truthy (trim (message w)) && negb disabled
  then mkWorld [] (sent w ++ [trim (message w)])
  else w.

(** [key] and [shiftKey] of the keyboard event. *)
Definition handleKeyPress (disabled : bool) (key : jsstring)
           (shiftKey : bool) (w : World) : World :=
  if str_eqb key (lit "Enter") && negb shiftKey
  then handleSend disabled w
  else w.

(** [onChange] of the input. *)
Definition setMessage (v : jsstring) (w : World) : World :=
  mkWorld v (sent w).

(** The [disabled] attribute of the Send button. *)
Definition sendDisabled (disabled : bool) (w : World) : bool :=
  disabled || negb (truthy (trim (message w))).

End ChatInput.

(* ================================================================== *)
(** ** FileUpload and the upload callback of ChatWindow *)
(* ================================================================== *)

Module FileUpload.

(** The cells of FileUpload, the [uploadedPdf] cell of ChatWindow, the
    messages ChatWindow has sent and the number of upload requests. *)
Record World : Type := mkWorld {
  uploading : bool;
  error : option jsstring;
  uploadedPdf : option jsstring;
  sent : list jsstring;
  requests : nat
}.

(** What the upload request can come to. *)
Inductive Outcome : Type :=
| FetchThrows         (* the request fails *)
| NotOk               (* a response with ok = false *)
| OkBodyThrows        (* ok, but the body is not JSON *)
| Ok.

(** [handleUploadSuccess] of ChatWindow, passed as [onUploadSuccess]. *)
Definition handleUploadSuccess (filename : jsstring) (w : World) : World :=
  mkWorld (uploading w) (error w) (Some filename)
          (sent w ++ [lit "quiz pdf"]) (requests w).

(** [file] is the name of [event.target.files?.[0]], if any. *)
Definition handleFileChange (file : option jsstring) (outcome : Outcome)
           (w : World) : World :=
  match file with
  | None => w
  | Some name =>
      if negb (endsWith (lit ".pdf") name)
      then mkWorld (uploading w) (Some (lit "Please upload a PDF file"))
                   (uploadedPdf w) (sent w) (requests w)
      else
        let w1 := mkWorld true None (uploadedPdf w) (sent w)
                          (S (requests w)) in
        let w2 :=
          match outcome with
          | Ok => handleUploadSuccess name w1
          | _ => mkWorld (uploading w1)
                         (Some (lit "Failed to upload PDF. Please try again."))
                         (uploadedPdf w1) (sent w1) (requests w1)
          end in
        mkWorld false (error w2) (uploadedPdf w2) (sent w2) (requests w2)
  end.

End FileUpload.

(** The hours and the minutes of a day. *)
Definition clockFields : list (N * N) :=
  list_prod (map N.of_nat (seq 0 24)) (map N.of_nat (seq 0 60)).

(** Reading a clock text back: the hours and minutes it stands for. *)
Definition readClock (s : jsstring) : option (N * N) :=
  let time (dh m1 m2 a : N) :=
    Some (dh mod 12 + (if a =? 80 then 12 else 0), 10 * (m1 - 48) + (m2 - 48)) in
  match s with
  | [h1; 58; m1; m2; 32; a; 77] => time (h1 - 48) m1 m2 a
  | [h1; h2; 58; m1; m2; 32; a; 77] =>
      time (10 * (h1 - 48) + (h2 - 48)) m1 m2 a
  | _ => None
  end.

(** The checks made on the clock text of one time of the day. *)
Definition clock_ok (hm : N * N) : bool :=
  let s := Utils.formatClock (Some hm) in
  let n := List.length s in
  ((n =? 7)%nat || (n =? 8)%nat)
  && Bool.eqb (endsWith (lit " AM") s) (fst hm <? 12)
  && Bool.eqb (endsWith (lit " PM") s) (12 <=? fst hm)
  && match readClock s with
     | Some hm' => (fst hm' =? fst hm) && (snd hm' =? snd hm)
     | None => false
     end.

(* ================================================================== *)
(** ** Home: the handlers of the page *)
(* ================================================================== *)

Module Chat.
Record t : Type := mk {
  id : jsstring;
  user_id : jsstring;
  title : jsstring;
  created_at : jsstring;
  updated_at : jsstring;
  is_active : bool
}.
End Chat.

Module Page.

(** The cells of the page that the handlers write. *)
Record State : Type := mkState {
  chats : list Chat.t;
  activeChat : option jsstring;
  messages : list Message;
  isLoading : bool;
  userId : jsstring;
  isAuthenticated : bool
}.

(** The calls a handler makes to the API service, in order. *)
Inductive Request : Type :=
| CreateChat (user_id title : jsstring)
| DeleteChat (chatId : jsstring)
| SendMessage (chat_id content : jsstring)
| GetChatMessages (chatId : jsstring)
| GetUserChats (userId : jsstring).

(** [loadChats]: [fetched] is [None] when the call throws. *)
Definition loadChats (fetched : option (list Chat.t)) (st : State)
  : State * list Request :=
  (match fetched with
   | Some userChats =>
       mkState userChats (activeChat st) (messages st) (isLoading st)
               (userId st) (isAuthenticated st)
   | None => st
   end,
   [GetUserChats (userId st)]).

Definition loadMessages (chatId : jsstring)
           (fetched : option (list Message)) (st : State)
  : State * list Request :=
  (mkState (chats st) (activeChat st)
           (Home.loadMessages fetched (messages st)) (isLoading st)
           (userId st) (isAuthenticated st),
   [GetChatMessages chatId]).

(** [handleNewChat]: [created] is the chat the service returns, [None]
    when the call throws. *)
Definition handleNewChat (created : option Chat.t) (st : State)
  : State * list Request :=
  (match created with
   | Some newChat =>
       mkState (newChat :: chats st) (Some (Chat.id newChat)) []
               (isLoading st) (userId st) (isAuthenticated st)
   | None => st
   end,
   [CreateChat (userId st) (lit "New Chat")]).

Definition handleSelectChat (chatId : jsstring) (st : State) : State :=
  mkState (chats st) (Some chatId) (messages st) (isLoading st)
          (userId st) (isAuthenticated st).

(** [activeChat === chatId] *)
Definition isActive (st : State) (chatId : jsstring) : bool :=
  match activeChat st with
  | Some a => str_eqb a chatId
  | None => false
  end.

(** [handleDeleteChat]: [ok] says that the call did not throw. *)
Definition handleDeleteChat (chatId : jsstring) (ok : bool) (st : State)
  : State * list Request :=
  (if ok then
     let kept := filter (fun chat => negb (str_eqb (Chat.id chat) chatId))
                        (chats st) in
     if isActive st chatId
     then mkState kept None [] (isLoading st) (userId st)
                  (isAuthenticated st)
     else mkState kept (activeChat st) (messages st) (isLoading st)
                  (userId st) (isAuthenticated st)
   else st,
   [DeleteChat chatId]).

(** [e.loc] of an entry of a validation error list, as line 173 reads
    it: absent or falsy, a list (its elements as [join] prints them), or
    a truthy value without a [join] method, on which the call throws. *)
Inductive Loc : Type :=
| LocAbsent
| LocList (l : list jsstring)
| LocOther.

(** One entry of the list: [null] or [undefined], on which [e.loc]
    throws, or a value with its [loc] and its [msg], an absent or falsy
    [msg] being the empty string. *)
Inductive Entry : Type :=
| EntryNull
| EntryError (loc : Loc) (msg : jsstring).

(** [error.response?.data?.detail]: a list, a string, or any other
    value, carried as its truthiness ([0], [false] and [null] are falsy)
    and its JSON text. *)
Inductive Detail : Type :=
| DetailArray (es : list Entry)
| DetailString (s : jsstring)
| DetailOther (isTruthy : bool) (json : jsstring).

Record ApiError : Type := mkApiError {
  detail : option Detail;
  message : jsstring
}.

Definition orDefault (s dflt : jsstring) : jsstring :=
  if truthy s then s else dflt.

(** The template of line 173; [None] when it throws. *)
Definition entryText (e : Entry) : option jsstring :=
  match e with
  | EntryNull => None
  | EntryError LocOther _ => None
  | EntryError (LocList l) msg =>
      Some (join (lit ".") l ++ lit ": "
            ++ orDefault msg (lit "validation error"))
  | EntryError LocAbsent msg =>
      Some (lit "field" ++ lit ": " ++ orDefault msg (lit "validation error"))
  end.

(** [detail.map(...)]: the first entry that throws ends the call. *)
Fixpoint entryTexts (es : list Entry) : option (list jsstring) :=
  match es with
  | [] => Some []
  | e :: es' =>
      match entryText e with
      | Some t =>
          match entryTexts es' with
          | Some ts => Some (t :: ts)
          | None => None
          end
      | None => None
      end
  end.

(** The text of lines 167-182; [None] when the catch block throws. *)
Definition errorText (error : ApiError) : option jsstring :=
  let fallback := orDefault (message error) (lit "Unknown error occurred") in
  match detail error with
  | Some (DetailArray es) =>
      match entryTexts es with
      | Some ts => Some (join (lit "; ") ts)
      | None => None
      end
  | Some (DetailString s) => Some (if truthy s then s else fallback)
  | Some (DetailOther true json) => Some json
  | Some (DetailOther false _) => Some fallback
  | None => Some fallback
  end.

(** An entry on which the template throws. *)
Definition throwsEntry (e : Entry) : bool :=
  match e with
  | EntryNull => true
  | EntryError LocOther _ => true
  | EntryError _ _ => false
  end.

(** A detail the test of line 168 takes for absent. *)
Definition falsyDetail (d : option Detail) : bool :=
  match d with
  | None => true
  | Some (DetailString s) => negb (truthy s)
  | Some (DetailOther isTruthy _) => negb isTruthy
  | Some (DetailArray _) => false
  end.

(** What the calls of [handleSendMessage] come to, and the clock. *)
Record Outcomes : Type := mkOutcomes {
  created : option Chat.t;
  sendResult : ApiError + Home.SendMessageResponse;
  fetchedMessages : option (list Message);
  fetchedChats : option (list Chat.t);
  now : jsstring;            (* Date.now(), in digits *)
  nowISO : jsstring          (* new Date().toISOString() *)
}.

Definition setLoading (b : bool) (st : State) : State :=
  mkState (chats st) (activeChat st) (messages st) b (userId st)
          (isAuthenticated st).

Definition setMessages (ms : list Message) (st : State) : State :=
  mkState (chats st) (activeChat st) ms (isLoading st) (userId st)
          (isAuthenticated st).

(** [isFeedback] of [handleSendMessage]. *)
Definition isFeedback (response : Home.SendMessageResponse) : bool :=
  startsWith (lit "FEEDBACK:") (content (Home.bot_message response))
  || Home.is_quiz_answer response.

Definition handleSendMessage (content : jsstring) (o : Outcomes) (st : State)
  : State * list Request :=
  match activeChat st with
  | Some (c :: a) =>
      let chat := c :: a in
      match sendResult o with
      | inr response =>
          let (st1, r1) :=
            if isFeedback response then loadMessages chat (fetchedMessages o) st
            else (setMessages
                    (messages st ++ [Home.user_message response;
                                     Home.bot_message response]) st, []) in
          let (st2, r2) := loadChats (fetchedChats o) st1 in
          (setLoading false st2, SendMessage chat content :: r1 ++ r2)
      | inl error =>
          match errorText error with
          | Some text =>
              let errorMsg :=
                mkMessage (lit "error-" ++ now o) chat ASSISTANT
                          (lit "Error: " ++ text) (nowISO o) in
              (setLoading false (setMessages (messages st ++ [errorMsg]) st),
               [SendMessage chat content])
          | None =>
              (* the catch block throws: only [finally] runs *)
              (setLoading false st, [SendMessage chat content])
          end
      end
  | _ => handleNewChat (created o) st
  end.

(** [handleLogout] with the store of the session. *)
Definition handleLogout (ls : Storage.Storage) (st : State)
  : Storage.Storage * State :=
  (Api.logout ls, mkState [] None [] (isLoading st) [] false).

Definition isSendMessage (r : Request) : bool :=
  match r with SendMessage _ _ => true | _ => false end.

End Page.

(** What holds of the overlay of a mounted message: its verdict is the
    comparison of its two letters, its hidden letter is not empty, and
    the selection is its selected letter. *)
Definition overlay_sound (w : World) : Prop :=
  forall f, instantFeedback (cells w) = Some f ->
    isCorrect f = str_eqb (selectedLetter f) (correctLetter f)
    /\ correctLetter f <> []
    /\ selectedAnswer (cells w) = Some (selectedLetter f).

(* ================================================================== *)
(** ** Lemmas on strings *)
(* ================================================================== *)

Unset Implicit Arguments.

Section StringFacts.

Lemma str_eqb_eq (a b : jsstring) : str_eqb a b = true <-> a = b.
Proof.
  revert b; induction a as [|x a IH]; intros [|y b]; simpl;
    try (split; [discriminate | discriminate]); try tauto.
  rewrite andb_true_iff, N.eqb_eq, IH.
  split; [intros [-> ->]; reflexivity | intros E; injection E; auto].
Qed.

Lemma str_eqb_refl (a : jsstring) : str_eqb a a = true.
Proof. apply str_eqb_eq; reflexivity. Qed.

Lemma startsWith_app (p s : jsstring) :
  startsWith p s = true <-> exists r, s = p ++ r.
Proof.
  revert s; induction p as [|x p IH]; intros s; simpl.
  - split; [exists s; reflexivity | reflexivity].
  - destruct s as [|y s].
    + split; [discriminate | intros [r E]; discriminate].
    + rewrite andb_true_iff, N.eqb_eq, IH. split.
      * intros [-> [r ->]]. exists r; reflexivity.
      * intros [r E]. injection E as -> ->. split; [reflexivity | eauto].
Qed.

Lemma includes_app (p s : jsstring) :
  includes p s = true <-> exists a b, s = a ++ p ++ b.
Proof.
  induction s as [|c s IH].
  - simpl. rewrite orb_false_r, startsWith_app. split.
    + intros [r E]. exists [], r. exact E.
    + intros [a [b E]]. destruct a; [exists b; exact E|discriminate].
  - cbn [includes]. rewrite orb_true_iff, startsWith_app, IH. split.
    + intros [[r E] | [a [b E]]].
      * exists [], r. exact E.
      * exists (c :: a), b. rewrite E. reflexivity.
    + intros [[|x a] [b E]].
      * left. exists b. exact E.
      * right. injection E as _ E. exists a, b. exact E.
Qed.

Lemma trimStart_suffix (s : jsstring) :
  exists ws, s = ws ++ trimStart s /\ forallb isSpace ws = true.
Proof.
  induction s as [|c s [ws [E H]]]; simpl.
  - exists []. auto.
  - destruct (isSpace c) eqn:Hc.
    + exists (c :: ws). simpl. rewrite Hc, H. split; [congruence | reflexivity].
    + exists []. auto.
Qed.

(** A string that starts with a character that is not white space is
    its own [trimStart]. *)
Lemma trimStart_keep (pre : jsstring) (c : cu) (rest : jsstring) :
  isSpace c = false ->
  exists pre', trimStart (pre ++ c :: rest) = pre' ++ c :: rest.
Proof.
  intros Hc. induction pre as [|x pre [pre' IH]]; simpl.
  - rewrite Hc. exists []. reflexivity.
  - destruct (isSpace x).
    + exists pre'. exact IH.
    + exists (x :: pre). reflexivity.
Qed.

Lemma trimEnd_prefix (s : jsstring) :
  exists ws, s = trimEnd s ++ ws /\ forallb isSpace ws = true.
Proof.
  unfold trimEnd. destruct (trimStart_suffix (rev s)) as [ws [E H]].
  exists (rev ws). split.
  - rewrite <- rev_app_distr, <- E, rev_involutive. reflexivity.
  - rewrite forallb_forall in *. intros x Hx. apply H, in_rev, Hx.
Qed.

Lemma trimEnd_keep (pre : jsstring) (c : cu) (rest : jsstring) :
  isSpace c = false ->
  exists rest', trimEnd (pre ++ c :: rest) = pre ++ c :: rest'.
Proof.
  intros Hc. unfold trimEnd.
  replace (rev (pre ++ c :: rest)) with (rev rest ++ c :: rev pre)
    by (rewrite rev_app_distr; simpl; rewrite <- app_assoc; reflexivity).
  destruct (trimStart_keep (rev rest) c (rev pre) Hc) as [r' ->].
  exists (rev r'). rewrite rev_app_distr. simpl.
  rewrite rev_involutive, <- app_assoc. reflexivity.
Qed.

(** [trim] keeps a piece of the line: the line is white space, the
    trimmed line, white space. *)
Lemma trim_infix (s : jsstring) :
  exists a b, s = a ++ trim s ++ b
              /\ forallb isSpace a = true /\ forallb isSpace b = true.
Proof.
  unfold trim.
  destruct (trimStart_suffix s) as [a [Ea Ha]].
  destruct (trimEnd_prefix (trimStart s)) as [b [Eb Hb]].
  exists a, b. split; [|auto]. rewrite <- Eb. exact Ea.
Qed.

(** Trimming keeps every piece of the line that starts and ends with a
    character that is not white space. *)
Lemma trim_keeps (pre mid post : jsstring) (c1 c2 : cu) :
  isSpace c1 = false -> isSpace c2 = false ->
  exists pre' post',
    trim (pre ++ c1 :: mid ++ c2 :: post) = pre' ++ c1 :: mid ++ c2 :: post'.
Proof.
  intros H1 H2. unfold trim.
  destruct (trimStart_keep pre c1 (mid ++ c2 :: post) H1) as [pre' ->].
  replace (pre' ++ c1 :: mid ++ c2 :: post)
    with ((pre' ++ c1 :: mid) ++ c2 :: post)
    by (rewrite <- app_assoc; reflexivity).
  destruct (trimEnd_keep (pre' ++ c1 :: mid) c2 post H2) as [post' ->].
  exists pre', post'. rewrite <- app_assoc. reflexivity.
Qed.

End StringFacts.

(* ================================================================== *)
(** ** Lemmas on the matcher *)
(* ================================================================== *)

Section MatcherFacts.

Variable R : Type.
Implicit Types (k : cls) (cont : jsstring -> jsstring -> option R).

(** A successful greedy loop has split its input: a run of the class,
    then what the rest of the pattern accepted. *)
Lemma star_inv k cont s : forall acc r,
  star k acc cont s = Some r ->
  exists u v, s = u ++ v /\ forallb (mem k) u = true
              /\ cont (acc ++ u) v = Some r.
Proof.
  induction s as [|c s IH]; intros acc r H; simpl in H.
  - exists [], []. rewrite !app_nil_r. repeat split; auto.
  - destruct (mem k c) eqn:Hc.
    + destruct (star k (acc ++ [c]) cont s) as [r'|] eqn:Hs.
      * injection H as ->. destruct (IH _ _ Hs) as [u [v [E [Hu Hr]]]].
        exists (c :: u), v. simpl. rewrite Hc, Hu, E.
        rewrite <- app_assoc in Hr. repeat split; auto.
      * exists [], (c :: s). rewrite !app_nil_r. repeat split; auto.
    + exists [], (c :: s). rewrite !app_nil_r. repeat split; auto.
Qed.

(** The loop fails only when every split fails. *)
Lemma star_none k cont s : forall acc,
  star k acc cont s = None ->
  forall u v, s = u ++ v -> forallb (mem k) u = true ->
              cont (acc ++ u) v = None.
Proof.
  induction s as [|c s IH]; intros acc H u v E Hu; simpl in H.
  - destruct u; [|discriminate]. simpl in E; subst v.
    rewrite app_nil_r. exact H.
  - destruct u as [|x u].
    + simpl in E; subst v. rewrite app_nil_r.
      destruct (mem k c); [|exact H].
      destruct (star k (acc ++ [c]) cont s); [discriminate | exact H].
    + injection E as Ex E. subst x. simpl in Hu.
      apply andb_true_iff in Hu as [Hx Hu]. rewrite Hx in H.
      destruct (star k (acc ++ [c]) cont s) eqn:Hs; [discriminate|].
      specialize (IH _ Hs u v E Hu). rewrite <- app_assoc in IH. exact IH.
Qed.


End MatcherFacts.

Section SearchFacts.

(** A pattern that starts with [^] matches at index 0 or not at all. *)
Lemma search_bol_false (re : regex) (s : jsstring) :
  search (Bol :: re) false s = None.
Proof. induction s as [|c s IH]; simpl; [reflexivity | exact IH]. Qed.

Lemma exec_bol (re : regex) (s : jsstring) :
  exec (Bol :: re) s = run re true [] s.
Proof.
  unfold exec. destruct s as [|c s]; cbn [search run].
  - destruct (run re true [] []); reflexivity.
  - destruct (run re true [] (c :: s)); [reflexivity|].
    apply search_bol_false.
Qed.

Lemma search_inv (re : regex) (s : jsstring) : forall at0 r,
  search re at0 s = Some r ->
  exists pre suf, s = pre ++ suf
                  /\ run re (at0 && isnil pre) [] suf = Some r.
Proof.
  induction s as [|c s IH]; intros at0 r H; cbn [search] in H.
  - exists [], []. rewrite andb_true_r.
    destruct (run re at0 [] []); [auto | discriminate].
  - destruct (run re at0 [] (c :: s)) eqn:Hr.
    + exists [], (c :: s). rewrite andb_true_r. injection H as <-. auto.
    + destruct (IH _ _ H) as [pre [suf [E Hs]]].
      exists (c :: pre), suf. rewrite E. simpl. rewrite andb_false_r.
      simpl in Hs. auto.
Qed.

Lemma search_none (re : regex) (s : jsstring) : forall at0,
  search re at0 s = None ->
  forall pre suf, s = pre ++ suf ->
                  run re (at0 && isnil pre) [] suf = None.
Proof.
  induction s as [|c s IH]; intros at0 H pre suf E; cbn [search] in H.
  - destruct pre; [|discriminate]. simpl in E; subst suf.
    rewrite andb_true_r. destruct (run re at0 [] []); [discriminate | auto].
  - destruct (run re at0 [] (c :: s)) eqn:Hr; [discriminate|].
    destruct pre as [|x pre].
    + simpl in E; subst suf. rewrite andb_true_r. exact Hr.
    + injection E as Ex E. subst x. simpl. rewrite andb_false_r.
      apply (IH false H pre suf E).
Qed.

End SearchFacts.

(* ================================================================== *)
(** ** Lemmas on the option patterns *)
(* ================================================================== *)

(** Read the next character of the input in a hypothesis about a run. *)
Ltac next_char H c s Hc :=
  match type of H with
  | match ?x with _ => _ end = Some _ =>
      destruct x as [|c s]; [discriminate H|];
      match type of H with
      | (if ?b then _ else _) = Some _ =>
          destruct b eqn:Hc; [|discriminate H]
      end
  end.

Section PatternFacts.



Lemma tail_inv (c1 : cu) (s : jsstring) (g : jsstring -> list jsstring) caps :
  star Space [c1]
    (fun _ rest : jsstring =>
       match rest with
       | [] => None
       | c2 :: s'2 =>
           if mem Dot c2
           then star Dot [c2]
                  (fun used rest0 : jsstring =>
                     match rest0 with
                     | [] => Some (g used)
                     | _ :: _ => None
                     end) s'2
           else None
       end) s = Some caps ->
  exists ws txt, s = ws ++ txt /\ forallb isSpace ws = true
                 /\ txt <> [] /\ forallb (mem Dot) txt = true
                 /\ caps = g txt.
Proof.
  intros H. apply star_inv in H as [ws [v [E [Hws H]]]].
  next_char H c2 v' Hc2.
  apply star_inv in H as [u [w [E' [Hu H]]]].
  destruct w; [|discriminate]. injection H as <-.
  rewrite app_nil_r in E'. subst v'.
  exists ws, (c2 :: u). repeat split; auto; try discriminate.
  simpl. rewrite Hu. simpl in Hc2. rewrite Hc2. reflexivity.
Qed.

Lemma exec_marked_inv mark s caps :
  exec (re_marked mark) s = Some caps ->
  exists L txt, caps = [[L]; txt] /\ marked_form mark s L txt.
Proof.
  unfold re_marked. rewrite exec_bol. cbn [run rep]. intros H.
  next_char H c s0 Hc.
  apply star_inv in H as [ws0 [v [E [Hws0 H]]]].
  next_char H L v1 HL. next_char H d v2 Hd. next_char H w v3 Hw.
  apply tail_inv in H as [ws [txt [E3 [Hws [Hne [Htxt ->]]]]]].
  simpl in Hc, Hd. apply N.eqb_eq in Hc, Hd. subst c d s0 v3.
  exists L, txt. split; [reflexivity|].
  exists ws0, (w :: ws). repeat split; auto; try discriminate.
  simpl. simpl in Hw. rewrite Hw. exact Hws.
Qed.

Lemma exec_normal_inv s caps :
  exec re_normal s = Some caps ->
  exists L txt, caps = [[L]; txt] /\ plain_form s L txt.
Proof.
  unfold re_normal. rewrite exec_bol. cbn [run rep]. intros H.
  next_char H L v1 HL. next_char H d v2 Hd. next_char H w v3 Hw.
  apply tail_inv in H as [ws [txt [E3 [Hws [Hne [Htxt ->]]]]]].
  simpl in Hd. apply N.eqb_eq in Hd. subst d v3.
  exists L, txt. split; [reflexivity|].
  exists (w :: ws). repeat split; auto; try discriminate.
  simpl. simpl in Hw. rewrite Hw. exact Hws.
Qed.




End PatternFacts.

Section ScanFacts.

Lemma orElse_inv (A : Type) (a b : option A) (x : A) :
  orElse a b = Some x -> a = Some x \/ b = Some x.
Proof. destruct a; simpl; auto. Qed.

Lemma truthy_nonempty (s : jsstring) : truthy s = true -> s <> [].
Proof. destruct s; [discriminate | discriminate]. Qed.

(** The option branches either push an option that comes from the line,
    or append the line to the question, or do nothing. *)
Lemma optionStep_cases (st : Scan) (line : jsstring) :
  (exists o, option_of line o
             /\ optionStep st line (trim line) = pushOption st o)
  \/ (foundOptions st = false /\ trim line <> []
      /\ optionStep st line (trim line)
         = mkScan (questionLines st ++ [line]) (s_options st)
                  (feedbackMessage st) (s_isAnswered st)
                  (s_correctAnswerLetter st) (foundOptions st))
  \/ optionStep st line (trim line) = st.
Proof.
  unfold optionStep.
  destruct (orElse (exec (re_marked CHECK) (trim line))
                   (exec (re_marked CHECK) line)) as [m|] eqn:Hc.
  { left. apply orElse_inv in Hc.
    assert (exists s, (s = trim line \/ s = line)
                      /\ exec (re_marked CHECK) s = Some m) as [s [Hs Hm]]
      by (destruct Hc; eauto).
    apply exec_marked_inv in Hm as [L [txt [-> F]]].
    eexists; split; [eapply of_correct; eauto | reflexivity]. }
  destruct (orElse (exec (re_marked CROSS) (trim line))
                   (exec (re_marked CROSS) line)) as [m|] eqn:Hi.
  { left. apply orElse_inv in Hi.
    assert (exists s, (s = trim line \/ s = line)
                      /\ exec (re_marked CROSS) s = Some m) as [s [Hs Hm]]
      by (destruct Hi; eauto).
    apply exec_marked_inv in Hm as [L [txt [-> F]]].
    eexists; split; [eapply of_incorrect; eauto | reflexivity]. }
  destruct (exec re_normal (trim line)) as [m|] eqn:Hn.
  - apply exec_normal_inv in Hn as [L [txt [-> F]]].
    destruct (negb (startsWith [CHECK] (trim line))
              && negb (startsWith [CROSS] (trim line))).
    + left. eexists; split; [eapply of_normal; eauto | reflexivity].
    + right. destruct (negb (foundOptions st) && truthy (trim line)) eqn:Hq;
        [left | right; reflexivity].
      apply andb_true_iff in Hq as [Hf Ht]. apply negb_true_iff in Hf.
      apply truthy_nonempty in Ht. auto.
  - right. destruct (negb (foundOptions st) && truthy (trim line)) eqn:Hq;
      [left | right; reflexivity].
    apply andb_true_iff in Hq as [Hf Ht]. apply negb_true_iff in Hf.
    apply truthy_nonempty in Ht. auto.
Qed.

Lemma scanLine_step (st : Scan) (line : jsstring) :
  scan_step st line (scanLine st line).
Proof.
  unfold scanLine.
  destruct (exec re_marker (trim line)) as [m|] eqn:Hm.
  { apply step_marker. exact Hm. }
  destruct (isFeedbackLine (trim line)) eqn:Hf.
  { apply step_feedback; assumption. }
  destruct (isFooterLine (trim line)) eqn:Hp.
  { apply step_skip; assumption. }
  destruct (optionStep_cases st line) as [[o [Ho ->]] | [[H1 [H2 ->]] | ->]].
  - apply step_option; [repeat split; assumption | exact Ho].
  - apply step_question; [repeat split; assumption | assumption | assumption].
  - apply step_skip; assumption.
Qed.

End ScanFacts.

Section MarkerFacts.

Lemma run_marker_inv (b : bool) (s : jsstring) (m : list jsstring) :
  run re_marker b [] s = Some m ->
  exists L rest, isLetter L = true /\ s = marker L ++ rest /\ m = [[L]].
Proof.
  let r := eval vm_compute in re_marker in change re_marker with r.
  cbn [run rep]. intros H.
  do 9 (let c := fresh "c" in let t := fresh "t" in let Hc := fresh "Hc" in
        next_char H c t Hc; cbn [mem] in Hc; apply N.eqb_eq in Hc; subst c).
  next_char H L t HL. next_char H d rest Hd.
  cbn [mem] in Hd. apply N.eqb_eq in Hd. subst d.
  injection H as <-. exists L, rest. repeat split. exact HL.
Qed.

Lemma run_marker_intro (b : bool) (L : cu) (rest : jsstring) :
  isLetter L = true -> run re_marker b [] (marker L ++ rest) = Some [[L]].
Proof.
  intros H.
  let r := eval vm_compute in re_marker in change re_marker with r.
  unfold isLetter in H. simpl in H. simpl. rewrite H. reflexivity.
Qed.

Lemma exec_marker_inv (s : jsstring) (m : list jsstring) :
  exec re_marker s = Some m ->
  exists pre L post,
    isLetter L = true /\ s = pre ++ marker L ++ post /\ m = [[L]].
Proof.
  intros H. apply search_inv in H as [pre [suf [E H]]].
  apply run_marker_inv in H as [L [rest [HL [-> ->]]]].
  exists pre, L, rest. auto.
Qed.

Lemma exec_marker_none (s : jsstring) :
  exec re_marker s = None <-> ~ hasMarker s.
Proof.
  split.
  - intros H [pre [L [post [HL E]]]].
    pose proof (search_none _ _ _ H pre (marker L ++ post) E) as N.
    rewrite run_marker_intro in N by exact HL. discriminate.
  - intros H. destruct (exec re_marker s) as [m|] eqn:E; [|reflexivity].
    exfalso. apply H. apply exec_marker_inv in E as [pre [L [post [HL [E _]]]]].
    exists pre, L, post. auto.
Qed.

Lemma test_marker_false (s : jsstring) :
  test re_marker s = false <-> ~ hasMarker s.
Proof.
  rewrite <- exec_marker_none. unfold test.
  destruct (exec re_marker s); split; congruence.
Qed.

(** A marker inside a piece of a string is a marker inside the string. *)
Lemma hasMarker_infix (a s b : jsstring) :
  hasMarker s -> hasMarker (a ++ s ++ b).
Proof.
  intros [pre [L [post [HL ->]]]]. exists (a ++ pre), L, (post ++ b).
  split; [exact HL|]. rewrite <- !app_assoc. reflexivity.
Qed.

(** Trimming cannot remove a marker: it starts and ends with characters
    that are not white space. *)
Lemma hasMarker_trim (s : jsstring) : hasMarker s <-> hasMarker (trim s).
Proof.
  split.
  - intros [pre [L [post [HL ->]]]].
    destruct (trim_keeps pre (lit "CORRECT:" ++ [L]) post 91 93
                eq_refl eq_refl) as [pre' [post' E]].
    exists pre', L, post'. split; [exact HL|].
    etransitivity; [|exact E]. reflexivity.
  - intros H. destruct (trim_infix s) as [a [b [E _]]].
    rewrite E. apply hasMarker_infix, H.
Qed.

Lemma marker_no_nl (L : cu) : isLetter L = true -> ~ In NL (marker L).
Proof.
  intros HL H. simpl in H.
  repeat (destruct H as [H|H]; [try discriminate H|]); try contradiction.
  subst L. discriminate HL.
Qed.

(** A string found across a separator that it does not contain lies on
    one side of the separator. *)
Lemma infix_across (c : cu) (M a b pre post : jsstring) :
  ~ In c M ->
  a ++ c :: b = pre ++ M ++ post ->
  (exists post', a = pre ++ M ++ post') \/ (exists pre', b = pre' ++ M ++ post).
Proof.
  intros Hc E. apply app_eq_app in E as [x [[E1 E2] | [E1 E2]]].
  - symmetry in E2. apply app_eq_app in E2 as [y [[E3 E4] | [E3 E4]]].
    + left. exists y. rewrite E1, E3. reflexivity.
    + destruct y as [|d y].
      * left. exists []. rewrite app_nil_r in E3. subst.
        rewrite app_nil_r. reflexivity.
      * exfalso. apply Hc. injection E4 as <- _. rewrite E3.
        apply in_or_app. right. left. reflexivity.
  - destruct x as [|d x].
    + simpl in E2. rewrite app_nil_r in E1. subst pre.
      destruct M as [|e M].
      * left. exists []. rewrite app_nil_r. reflexivity.
      * exfalso. apply Hc. simpl in E2. injection E2 as <- _. left. reflexivity.
    + right. injection E2 as _ E2. exists x. exact E2.
Qed.

End MarkerFacts.

Section DetectionFacts.

Lemma star_total (R : Type) (k : cls) (cont : jsstring -> jsstring -> option R)
      (s : jsstring) : forall acc,
  (forall a b, cont a b <> None) -> star k acc cont s <> None.
Proof.
  induction s as [|c s IH]; intros acc H; simpl; [apply H|].
  destruct (mem k c); [|apply H].
  destruct (star k (acc ++ [c]) cont s) eqn:E; [discriminate|].
  exfalso. exact (IH _ H E).
Qed.

Lemma run_hasOptions_inv (b : bool) (s : jsstring) (m : list jsstring) :
  run re_hasOptions b [] s = Some m ->
  exists L ws c post,
    s = L :: 46 :: ws ++ c :: post
    /\ isLetter L = true /\ ws <> [] /\ forallb isSpace ws = true
    /\ isLineTerminator c = false.
Proof.
  unfold re_hasOptions. cbn [run rep]. intros H.
  next_char H L t1 HL. next_char H d t2 Hd. next_char H w t3 Hw.
  apply star_inv in H as [ws [v [E [Hws H]]]].
  next_char H c post Hc.
  cbn [mem] in Hd, Hw, Hc. apply N.eqb_eq in Hd. apply negb_true_iff in Hc.
  subst d t3. exists L, (w :: ws), c, post.
  repeat split; auto; try discriminate.
  cbn [forallb]. rewrite Hw. exact Hws.
Qed.

Lemma run_hasOptions_intro (b : bool) (L c : cu) (ws post : jsstring) :
  isLetter L = true -> ws <> [] -> forallb isSpace ws = true ->
  isLineTerminator c = false ->
  run re_hasOptions b [] (L :: 46 :: ws ++ c :: post) <> None.
Proof.
  intros HL Hne Hws Hc. unfold re_hasOptions. cbn [run rep].
  unfold isLetter in HL. rewrite HL. cbn [mem]. rewrite N.eqb_refl.
  destruct ws as [|w ws]; [congruence|]. cbn [forallb] in Hws.
  apply andb_true_iff in Hws as [Hw Hws]. cbn [app]. rewrite Hw.
  intros N. eapply star_none with (u := ws) (v := c :: post) in N;
    [|reflexivity|exact Hws].
  cbn beta iota in N. rewrite Hc in N. cbn [negb] in N.
  revert N. apply star_total. discriminate.
Qed.

Lemma hasOptions_spec (s : jsstring) :
  hasOptions s = true <-> optionPattern s.
Proof.
  unfold hasOptions, test. split.
  - destruct (exec re_hasOptions s) as [m|] eqn:E; [intros _|discriminate].
    apply search_inv in E as [pre [suf [-> H]]].
    apply run_hasOptions_inv in H as [L [ws [c [post H]]]].
    exists pre, L, ws, c, post. destruct H as [-> H]. auto.
  - intros [pre [L [ws [c [post [-> [HL [Hne [Hws Hc]]]]]]]]].
    destruct (exec re_hasOptions _) eqn:E; [reflexivity|].
    exfalso. eapply search_none in E; [|reflexivity].
    revert E. apply run_hasOptions_intro; assumption.
Qed.

End DetectionFacts.

Section LoopFacts.

Lemma scan_inv_step (all : list jsstring) (st : Scan) (line : jsstring) :
  In line all -> scan_inv all st -> scan_inv all (scanLine st line).
Proof.
  intros Hin [Hq Ho]. destruct (scanLine_step st line); split; simpl; auto.
  - apply Forall_app. split; [exact Ho|]. constructor; [|constructor].
    exists line. auto.
  - apply Forall_app. split; [exact Hq|]. constructor; [|constructor]. auto.
Qed.

Lemma scan_inv_fold (all ls : list jsstring) : forall st,
  (forall l, In l ls -> In l all) ->
  scan_inv all st -> scan_inv all (fold_left scanLine ls st).
Proof.
  induction ls as [|l ls IH]; intros st Hsub Hst; simpl; [exact Hst|].
  apply IH.
  - intros x Hx. apply Hsub. right. exact Hx.
  - apply scan_inv_step; [apply Hsub; left; reflexivity | exact Hst].
Qed.

Lemma scan_inv_scanLines (lines : list jsstring) :
  scan_inv lines (scanLines lines).
Proof.
  apply scan_inv_fold; [auto|]. split; constructor.
Qed.

(** The answered flag and the feedback text after the loop. *)
Lemma last_cons (A : Type) (x : A) (l : list A) (d : A) :
  last (x :: l) d = last l x.
Proof.
  revert x d. induction l as [|y l IH]; intros x d; [reflexivity|].
  change (last (x :: y :: l) d) with (last (y :: l) d).
  rewrite (IH y d), (IH y x). reflexivity.
Qed.

Lemma scanLine_feedback (st : Scan) (line : jsstring) :
  s_isAnswered (scanLine st line) = s_isAnswered st || isFeedbackOnly line
  /\ feedbackMessage (scanLine st line)
     = if isFeedbackOnly line then removeDoubleStars (trim line)
       else feedbackMessage st.
Proof.
  unfold isFeedbackOnly.
  destruct (scanLine_step st line) as [m Hm | Hm Hf | o [Hm [Hf Hp]] Ho
                                      | [Hm [Hf Hp]] _ _ | Hm Hf];
    rewrite Hm; try rewrite Hf; simpl;
    rewrite ?orb_false_r, ?orb_true_r; auto.
Qed.

Lemma fold_feedback (ls : list jsstring) : forall st,
  s_isAnswered (fold_left scanLine ls st)
  = s_isAnswered st || existsb isFeedbackOnly ls
  /\ feedbackMessage (fold_left scanLine ls st)
     = last (map (fun l => removeDoubleStars (trim l))
                 (filter isFeedbackOnly ls))
            (feedbackMessage st).
Proof.
  induction ls as [|l ls IH]; intros st; simpl.
  - rewrite orb_false_r. auto.
  - destruct (IH (scanLine st l)) as [-> ->].
    destruct (scanLine_feedback st l) as [-> ->].
    rewrite orb_assoc. split; [reflexivity|].
    destruct (isFeedbackOnly l); [|reflexivity].
    cbn [map]. rewrite last_cons. reflexivity.
Qed.

(** Without a marker line the hidden letter stays empty. *)
Lemma scanLine_letter (st : Scan) (line : jsstring) :
  exec re_marker (trim line) = None ->
  s_correctAnswerLetter (scanLine st line) = s_correctAnswerLetter st.
Proof.
  intros H. destruct (scanLine_step st line); try reflexivity. congruence.
Qed.

Lemma fold_letter (ls : list jsstring) : forall st,
  Forall (fun l => exec re_marker (trim l) = None) ls ->
  s_correctAnswerLetter (fold_left scanLine ls st) = s_correctAnswerLetter st.
Proof.
  induction ls as [|l ls IH]; intros st H; simpl; [reflexivity|].
  inversion H; subst. rewrite IH by assumption. apply scanLine_letter.
  assumption.
Qed.

(** Every option letter is one of A to D. *)
Lemma option_of_letter (line : jsstring) (o : QuizOption) :
  option_of line o -> exists L, isLetter L = true /\ letter o = [L].
Proof.
  intros [s L txt _ F | s L txt _ F | L txt F]; exists L; split;
    try reflexivity.
  - destruct F as [? [? [? [? [? ?]]]]]; assumption.
  - destruct F as [? [? [? [? [? ?]]]]]; assumption.
  - destruct F as [? [? [? ?]]]; assumption.
Qed.

End LoopFacts.

Section ParseFacts.

(** The parser as a function of the loop. *)
Lemma quizData_inv (p : Props) (d : QuizData) :
  quizData p = Some d ->
  let st := scanLines (split_nl (safeContent p)) in
  detected p = true
  /\ List.length (s_options st) = 4%nat
  /\ d = mkQuizData (join_nl (questionLines st)) (s_options st)
                    (feedbackMessage st) (s_isAnswered st)
                    (s_correctAnswerLetter st).
Proof.
  unfold quizData, parseQuizQuestion, detected. cbv zeta.
  destruct (negb (hasOptions (safeContent p)) || isUser p); [discriminate|].
  destruct (Nat.eqb_spec
              (List.length (s_options (scanLines (split_nl (safeContent p)))))
              4); [|discriminate].
  intros H. injection H as <-. auto.
Qed.

Lemma quizData_letters (p : Props) (d : QuizData) :
  quizData p = Some d ->
  Forall (fun o => exists L, isLetter L = true /\ letter o = [L]) (options d).
Proof.
  intros H. apply quizData_inv in H as [_ [_ ->]]. simpl.
  destruct (scan_inv_scanLines (split_nl (safeContent p))) as [_ Ho].
  eapply Forall_impl; [|exact Ho]. simpl.
  intros o [l [_ [_ Hof]]]. eapply option_of_letter, Hof.
Qed.

End ParseFacts.

Section ClickFacts.

Lemma click_locked (p : Props) (d : QuizData) (o : QuizOption) (w : World) :
  selectedAnswer (cells w) <> None ->
  exec_handler (clickOption p d o) w = w.
Proof.
  intros H. unfold exec_handler, clickOption, bind, readState. simpl.
  destruct (selectedAnswer (cells w)); [|congruence].
  rewrite orb_true_r. reflexivity.
Qed.

Lemma click_answered (p : Props) (d : QuizData) (o : QuizOption) (w : World) :
  isAnswered d = true ->
  exec_handler (clickOption p d o) w = w.
Proof.
  intros H. unfold exec_handler, clickOption, bind, readState. simpl.
  rewrite H. reflexivity.
Qed.

Lemma click_no_letter (p : Props) (d : QuizData) (o : QuizOption) (w : World) :
  correctAnswerLetter d = [] ->
  exec_handler (clickOption p d o) w = w.
Proof.
  intros H. unfold exec_handler, clickOption, handleOptionClick, bind,
    readState, ret. simpl. rewrite H. simpl.
  destruct (isAnswered d), (selectedAnswer (cells w)) as [[|c s]|] eqn:E,
    (onSendMessage p); simpl; rewrite ?E; reflexivity.
Qed.

Lemma click_first (p : Props) (d : QuizData) (o : QuizOption) (w : World) :
  onSendMessage p = true -> isAnswered d = false ->
  correctAnswerLetter d <> [] -> selectedAnswer (cells w) = None ->
  exec_handler (clickOption p d o) w
  = mkWorld (mkState (Some (letter o))
               (Some (mkInstant (letter o)
                        (str_eqb (letter o) (correctAnswerLetter d))
                        (correctAnswerLetter d))))
            (sent w ++ [letter o]).
Proof.
  intros Hs Ha Hc Hn.
  unfold exec_handler, clickOption, handleOptionClick, bind, readState, ret,
    setInstantFeedback, setSelectedAnswer, callOnSendMessage.
  simpl. rewrite Ha, Hn, Hs. simpl.
  destruct (correctAnswerLetter d); [congruence|]. rewrite Hn. reflexivity.
Qed.

Lemma clicks_locked (p : Props) (d : QuizData) (os : list QuizOption) :
  forall w, selectedAnswer (cells w) <> None -> clicks p d os w = w.
Proof.
  induction os as [|o os IH]; intros w H; simpl; [reflexivity|].
  rewrite click_locked by exact H. apply IH, H.
Qed.

End ClickFacts.

Example parse_question :
  quizData (withSend (msg ASSISTANT body_question)) = Some quiz_question.
Proof. vm_compute. reflexivity. Qed.

(** C1: the parser returns a QuizQuestion only if the line scan collected
    exactly four options; a body whose scan collects fewer or more than
    four yields no QuizQuestion and the message is rendered as ordinary
    chat text, its content unchanged. *)
Theorem C1_four_options_or_plain_text (p : Props) (st : State) :
  let collected := s_options (scanLines (split_nl (safeContent p))) in
  (forall d, quizData p = Some d ->
             List.length collected = 4%nat /\ options d = collected)
  /\ (List.length collected <> 4%nat ->
      quizData p = None /\ render p st = TextView (safeContent p)).
Proof.
  cbv zeta. split.
  - intros d H. apply quizData_inv in H as [_ [H ->]]. auto.
  - intros H. assert (Q : quizData p = None).
    { destruct (quizData p) as [d|] eqn:E; [|reflexivity].
      apply quizData_inv in E as [_ [E _]]. contradiction. }
    split; [exact Q|]. unfold render. rewrite Q. reflexivity.
Qed.

Example three_options_plain_text :
  render (withSend (msg ASSISTANT body_three)) state0 = TextView body_three.
Proof. vm_compute. reflexivity. Qed.

(** C9: when a body parses as a QuizQuestion and none of its lines holds
    a [CORRECT:<Letter>] marker, the hidden letter is the empty string
    and a click on any option is a no-op: no optimistic feedback, no
    recorded selection, no message sent. *)
Theorem C9_no_marker_click_is_noop (p : Props) (d : QuizData) :
  quizData p = Some d ->
  Forall (fun l => ~ hasMarker l) (split_nl (safeContent p)) ->
  correctAnswerLetter d = []
  /\ forall (o : QuizOption) (w : World),
       exec_handler (clickOption p d o) w = w.
Proof.
  intros H Hm. apply quizData_inv in H as [_ [_ ->]]. cbn [correctAnswerLetter].
  assert (Hm' : Forall (fun l => exec re_marker (trim l) = None)
                       (split_nl (safeContent p))).
  { eapply Forall_impl; [|exact Hm]. intros l N.
    apply exec_marker_none. rewrite <- hasMarker_trim. exact N. }
  assert (E : s_correctAnswerLetter (scanLines (split_nl (safeContent p))) = [])
    by (unfold scanLines; rewrite fold_letter by exact Hm'; reflexivity).
  split; [exact E|]. intros o w. apply click_no_letter. exact E.
Qed.

Lemma C9_witness :
  let p := withSend (msg ASSISTANT body_unmarked) in
  let d := mkQuizData (lit "What is 2+2?") [optA; optB; optC; optD] [] false [] in
  correctAnswerLetter d = []
  /\ forall (o : QuizOption) (w : World),
       exec_handler (clickOption p d o) w = w.
Proof.
  apply (C9_no_marker_click_is_noop
           (withSend (msg ASSISTANT body_unmarked))
           (mkQuizData (lit "What is 2+2?") [optA; optB; optC; optD] [] false [])).
  - vm_compute. reflexivity.
  - repeat constructor; apply test_marker_false; vm_compute; reflexivity.
Defined.

Section BadgeFacts.

Lemma badge_selected (d : QuizData) (o : QuizOption) (f : InstantFeedback)
      (sel : option jsstring) :
  isAnswered d = false -> letter o = selectedLetter f ->
  In (Instant, if isCorrect f then BadgeCorrect else BadgeWrong)
     (badges d (mkState sel (Some f)) o).
Proof.
  intros Ha E. unfold badges. cbn [instantFeedback]. rewrite Ha, E.
  rewrite str_eqb_refl. cbn [negb andb].
  destruct (isCorrect f); cbn [negb when app]; left; reflexivity.
Qed.

Lemma badge_correct (d : QuizData) (o : QuizOption) (f : InstantFeedback)
      (sel : option jsstring) :
  isAnswered d = false -> letter o = correctLetter f ->
  isCorrect f = str_eqb (selectedLetter f) (correctLetter f) ->
  In (Instant, BadgeCorrect) (badges d (mkState sel (Some f)) o).
Proof.
  intros Ha E Hc. unfold badges. cbn [instantFeedback]. rewrite Ha, E, Hc.
  cbn [negb andb].
  destruct (str_eqb (correctLetter f) (selectedLetter f)) eqn:Q.
  - apply str_eqb_eq in Q. rewrite <- Q, str_eqb_refl. left. reflexivity.
  - rewrite str_eqb_refl. cbn [negb andb when app]. left. reflexivity.
Qed.

End BadgeFacts.


Section InstanceFacts.

Import Instance.

(** A click either changes nothing or is the first one. *)
Lemma click_cases (p : Props) (d : QuizData) (o : QuizOption) (w : World) :
  exec_handler (clickOption p d o) w = w
  \/ (selectedAnswer (cells w) = None /\ isAnswered d = false
      /\ exec_handler (clickOption p d o) w
         = mkWorld (mkState (Some (letter o))
                      (Some (mkInstant (letter o)
                               (str_eqb (letter o) (correctAnswerLetter d))
                               (correctAnswerLetter d))))
                   (sent w ++ [letter o])).
Proof.
  destruct (isAnswered d) eqn:Ha; [left; apply click_answered, Ha|].
  destruct (selectedAnswer (cells w)) as [s|] eqn:Hn;
    [left; apply click_locked; congruence|].
  destruct (correctAnswerLetter d) as [|c l] eqn:Hc;
    [left; apply click_no_letter, Hc|].
  destruct (onSendMessage p) eqn:Hs.
  - right. rewrite <- Hc. repeat split; auto.
    apply click_first; auto. congruence.
  - left. unfold exec_handler, clickOption, handleOptionClick, bind,
      readState, ret. simpl. rewrite Ha, Hn, Hs. simpl. reflexivity.
Qed.

Lemma reset_cases (q : option QuizData) (w : World) :
  exec_handler (resetEffect q) w
  = if dep_eqb (depIsAnswered q) (Some true)
    then mkWorld (mkState (selectedAnswer (cells w)) None) (sent w)
    else w.
Proof.
  destruct q as [d|]; simpl; [|reflexivity].
  destruct (isAnswered d); reflexivity.
Qed.

Lemma sent_inv_mount (p : Props) : sent_inv (mount p).
Proof.
  left. unfold mount. cbn [world]. rewrite reset_cases.
  destruct (dep_eqb _ _); auto.
Qed.

Lemma sent_inv_step (i : Instance) (e : Event) :
  sent_inv i -> sent_inv (step i e).
Proof.
  intros H. destruct e as [n|m]; cbn [step].
  - destruct (quizData (props i)) as [d|]; [|exact H].
    destruct (nth_error (options d) n) as [o|]; [|exact H].
    unfold sent_inv. cbn [world].
    destruct (click_cases (props i) d o (world i)) as [-> | [Hn [_ ->]]];
      [exact H|].
    right. destruct H as [[_ Hs] | [Hs _]]; [|congruence].
    rewrite Hs. split; [discriminate | reflexivity].
  - unfold sent_inv. cbn [world]. destruct (dep_eqb _ (lastDep i)); [exact H|].
    rewrite reset_cases. destruct (dep_eqb _ (Some true)); exact H.
Qed.

Lemma sent_inv_run (es : list Event) : forall i,
  sent_inv i -> sent_inv (run_events i es).
Proof.
  induction es as [|e es IH]; intros i H; simpl; [exact H|].
  apply IH, sent_inv_step, H.
Qed.

Lemma dep_eqb_eq (a b : option bool) : dep_eqb a b = true <-> a = b.
Proof.
  destruct a as [[|]|], b as [[|]|]; simpl; split; congruence.
Qed.

Lemma overlay_inv_mount (p : Props) : overlay_inv (mount p).
Proof.
  split; [reflexivity|]. unfold mount. cbn [lastDep world]. intros H.
  rewrite reset_cases, H. reflexivity.
Qed.

Lemma overlay_inv_step (i : Instance) (e : Event) :
  overlay_inv i -> overlay_inv (step i e).
Proof.
  intros [Hd Ho]. destruct e as [n|m]; cbn [step].
  - destruct (quizData (props i)) as [d|] eqn:Hq; [|split; [rewrite Hq|]; auto].
    destruct (nth_error (options d) n) as [o|]; [|split; [rewrite Hq|]; auto].
    split; cbn [lastDep props world]; [rewrite Hq; exact Hd|].
    intros H. destruct (click_cases (props i) d o (world i))
      as [-> | [_ [Ha _]]]; [auto|].
    rewrite H in Hd. simpl in Hd. congruence.
  - split; cbn [lastDep props world]; [reflexivity|]. intros H.
    destruct (dep_eqb _ (lastDep i)) eqn:E.
    + apply dep_eqb_eq in E. apply Ho. congruence.
    + rewrite reset_cases, H. reflexivity.
Qed.

Lemma overlay_inv_run (es : list Event) : forall i,
  overlay_inv i -> overlay_inv (run_events i es).
Proof.
  induction es as [|e es IH]; intros i H; simpl; [exact H|].
  apply IH, overlay_inv_step, H.
Qed.

(** Only a reload that reports an answered question clears the overlay. *)
Lemma overlay_cleared_by (i : Instance) (e : Event) (f : InstantFeedback) :
  instantFeedback (cells (world i)) = Some f ->
  instantFeedback (cells (world (step i e))) = None ->
  exists m d, e = Update m /\ quizData (props (step i e)) = Some d
              /\ isAnswered d = true.
Proof.
  intros Hf Hn. destruct e as [n|m]; cbn [step] in *.
  - exfalso. destruct (quizData (props i)) as [d|]; [|congruence].
    destruct (nth_error (options d) n) as [o|]; [|congruence].
    cbn [world] in Hn.
    destruct (click_cases (props i) d o (world i)) as [E | [_ [_ E]]];
      rewrite E in Hn; [congruence | discriminate].
  - cbn [world props] in *. exists m.
    destruct (dep_eqb _ (lastDep i)); [congruence|].
    rewrite reset_cases in Hn.
    destruct (quizData (mkProps m (onSendMessage (props i)))) as [d|];
      [|simpl in Hn; congruence].
    exists d. simpl in Hn. destruct (isAnswered d); simpl in Hn;
      [auto | congruence].
Qed.

(** With an answered question the view shows nothing of the overlay. *)
Lemma answered_view (d : QuizData) (st : State) (o : QuizOption) :
  isAnswered d = true ->
  instantMessage d st = None
  /\ b_status (renderOption d st o) = status o
  /\ forall b, ~ In (Instant, b) (b_badges (renderOption d st o)).
Proof.
  intros Ha.
  assert (Hs : buttonStatus d st o = status o).
  { unfold buttonStatus. rewrite Ha. destruct (instantFeedback st); reflexivity. }
  unfold instantMessage, renderOption, badges. cbn [b_status b_badges].
  rewrite Hs, Ha. cbn [negb andb].
  repeat split; [destruct (instantFeedback st); reflexivity|].
  intros b H.
  destruct (instantFeedback st), (is_status (status o) correct),
    (is_status (status o) incorrect); cbn [andb when app] in H;
    repeat (destruct H as [H|H]; [discriminate H|]); exact H.
Qed.

End InstanceFacts.
Section WindowLockFacts.

Import MessageList.

Lemma find_inv (k : jsstring) (cs : list (jsstring * Instance.Instance))
      (i : Instance.Instance) :
  Forall (fun c => sent_inv (snd c)) cs -> find k cs = Some i -> sent_inv i.
Proof.
  induction cs as [|[k' j] cs IH]; simpl; [discriminate|].
  intros H E. inversion H as [|? ? Hj Hcs]; subst.
  destruct (str_eqb k' k); [injection E as <-; exact Hj | apply IH; assumption].
Qed.

Lemma renderFrom_inv (old : list (jsstring * Instance.Instance))
      (ms : list Message) :
  Forall (fun c => sent_inv (snd c)) old ->
  forall index, Forall (fun c => sent_inv (snd c)) (renderFrom old index ms).
Proof.
  intros H. induction ms as [|m ms IH]; intros index; simpl; constructor;
    [|apply IH].
  destruct (find (key index m) old) as [i|] eqn:E.
  - apply (sent_inv_step i (Instance.Update m)), (find_inv _ _ _ H E).
  - apply (sent_inv_mount (mkProps m true)).
Qed.

Lemma setChild_inv (c : jsstring * Instance.Instance)
      (cs : list (jsstring * Instance.Instance)) :
  sent_inv (snd c) -> Forall (fun c => sent_inv (snd c)) cs ->
  forall index, Forall (fun c => sent_inv (snd c)) (setChild index c cs).
Proof.
  intros Hc H. induction H as [|c' cs Hc' H IH]; intros [|n]; simpl;
    constructor; auto.
Qed.

Lemma children_inv_step (w : Window) (e : Event) :
  Forall (fun c => sent_inv (snd c)) (children w) ->
  Forall (fun c => sent_inv (snd c)) (children (step w e)).
Proof.
  intros H. destruct e as [ms|index n]; cbn [step].
  - apply renderFrom_inv, H.
  - destruct (nth_error (children w) index) as [[k i]|] eqn:E; [|exact H].
    cbn [children]. apply setChild_inv; [|exact H].
    apply (sent_inv_step i (Instance.Click n)).
    apply nth_error_In in E. rewrite Forall_forall in H.
    apply (H (k, i) E).
Qed.

Lemma children_inv_run (es : list Event) : forall w,
  Forall (fun c => sent_inv (snd c)) (children w) ->
  Forall (fun c => sent_inv (snd c)) (children (run_events w es)).
Proof.
  induction es as [|e es IH]; intros w H; simpl; [exact H|].
  apply IH, children_inv_step, H.
Qed.

Lemma sent_inv_bound (i : Instance.Instance) :
  sent_inv i -> (List.length (sent (Instance.world i)) <= 1)%nat.
Proof. intros [[_ ->] | [_ ->]]; simpl; lia. Qed.

End WindowLockFacts.

(** C4, as stated, fails: the lock is a cell of the mounted component.
    The window shows an unanswered question and the user clicks A; the
    list becomes empty (a new chat) and then shows the same stored
    message again; the component is mounted afresh, a click on C passes
    the lock, and a second letter is forwarded for the same unanswered
    question. *)
Lemma C4_counterexample :
  let q := msg ASSISTANT body_question in
  let w := MessageList.run_events MessageList.window0
             [MessageList.Render [q]; MessageList.Click 0 0;
              MessageList.Render []; MessageList.Render [q];
              MessageList.Click 0 2] in
  quizData (withSend q) = Some quiz_question
  /\ isAnswered quiz_question = false
  /\ MessageList.forwarded w = [lit "A"; lit "C"].
Proof. vm_compute. repeat split. Qed.

(** While the message stays mounted the second click is dropped. *)
Example second_click_while_mounted :
  let q := msg ASSISTANT body_question in
  MessageList.forwarded
    (MessageList.run_events MessageList.window0
       [MessageList.Render [q]; MessageList.Click 0 0;
        MessageList.Render [q]; MessageList.Click 0 2])
  = [lit "A"].
Proof. vm_compute. reflexivity. Qed.

(** C4 (amended): the first click on an option of a mounted message that
    displays an unanswered question whose hidden letter is known
    computes isCorrect as (clicked letter = hidden letter), records the
    selection and forwards the letter once; every later click on any
    option of that mounted component changes nothing, so a component
    forwards one letter at most between its mount and its unmount, over
    every run of clicks and reloads and for every component the window
    has mounted; the chosen option shows the instant badge of its
    verdict and the correct option shows the instant CORRECT badge. *)
Theorem C4_first_click_locks_and_badges
        (p : Props) (d : QuizData) (o : QuizOption) (w : World) :
  quizData p = Some d -> onSendMessage p = true ->
  isAnswered d = false -> correctAnswerLetter d <> [] ->
  In o (options d) -> selectedAnswer (cells w) = None ->
  let verdict := str_eqb (letter o) (correctAnswerLetter d) in
  let w1 := exec_handler (clickOption p d o) w in
  instantFeedback (cells w1)
  = Some (mkInstant (letter o) verdict (correctAnswerLetter d))
  /\ selectedAnswer (cells w1) = Some (letter o)
  /\ sent w1 = sent w ++ [letter o]
  /\ (forall os, clicks p d os w1 = w1)
  /\ (forall es, (List.length (sent (Instance.world
                     (Instance.run_events (Instance.mount p) es))) <= 1)%nat)
  /\ (forall es c,
        In c (MessageList.children
                (MessageList.run_events MessageList.window0 es)) ->
        (List.length (sent (Instance.world (snd c))) <= 1)%nat)
  /\ In (Instant, if verdict then BadgeCorrect else BadgeWrong)
        (b_badges (renderOption d (cells w1) o))
  /\ (forall o', In o' (options d) -> letter o' = correctAnswerLetter d ->
                 In (Instant, BadgeCorrect)
                    (b_badges (renderOption d (cells w1) o'))).
Proof.
  intros Hq Hs Ha Hc Ho Hn. cbv zeta.
  rewrite (click_first p d o w Hs Ha Hc Hn). cbn [cells sent instantFeedback
    selectedAnswer renderOption b_badges].
  repeat split.
  - intros os. apply clicks_locked. discriminate.
  - intros es.
    apply sent_inv_bound, sent_inv_run, sent_inv_mount.
  - intros es c Hin. apply sent_inv_bound.
    pose proof (children_inv_run es MessageList.window0 (Forall_nil _)) as F.
    rewrite Forall_forall in F. apply (F c Hin).
  - apply (badge_selected d o
             (mkInstant (letter o) (str_eqb (letter o) (correctAnswerLetter d))
                        (correctAnswerLetter d))); auto.
  - intros o' _ E.
    apply (badge_correct d o'
             (mkInstant (letter o) (str_eqb (letter o) (correctAnswerLetter d))
                        (correctAnswerLetter d))); auto.
Qed.

Lemma C4_witness :
  let p := withSend (msg ASSISTANT body_question) in
  let w1 := exec_handler (clickOption p quiz_question optA) world0 in
  instantFeedback (cells w1) = Some (mkInstant (lit "A") false (lit "B"))
  /\ selectedAnswer (cells w1) = Some (lit "A")
  /\ sent w1 = [lit "A"]
  /\ (forall os, clicks p quiz_question os w1 = w1)
  /\ (forall es, (List.length (sent (Instance.world
                     (Instance.run_events (Instance.mount p) es))) <= 1)%nat)
  /\ (forall es c,
        In c (MessageList.children
                (MessageList.run_events MessageList.window0 es)) ->
        (List.length (sent (Instance.world (snd c))) <= 1)%nat)
  /\ In (Instant, BadgeWrong) (b_badges (renderOption quiz_question (cells w1) optA))
  /\ (forall o', In o' (options quiz_question) -> letter o' = lit "B" ->
                 In (Instant, BadgeCorrect)
                    (b_badges (renderOption quiz_question (cells w1) o'))).
Proof.
  apply (C4_first_click_locks_and_badges
           (withSend (msg ASSISTANT body_question)) quiz_question optA world0).
  - vm_compute. reflexivity.
  - reflexivity.
  - reflexivity.
  - discriminate.
  - simpl. auto.
  - reflexivity.
Defined.

(** C5: the optimistic overlay is cleared exactly when the freshly loaded
    question reports isAnswered = true: after any run of clicks and
    reloads an answered question has no overlay, and nothing but a reload
    that reports an answered question ever clears one; while the question
    is answered the view shows no optimistic badge and no optimistic
    feedback line, only the statuses and the feedback of the stored
    message. *)
Theorem C5_overlay_cleared_exactly_when_answered
        (p : Props) (es : list Instance.Event) :
  let i := Instance.run_events (Instance.mount p) es in
  (forall d, quizData (Instance.props i) = Some d -> isAnswered d = true ->
             instantFeedback (cells (Instance.world i)) = None)
  /\ (forall e f,
        instantFeedback (cells (Instance.world i)) = Some f ->
        instantFeedback (cells (Instance.world (Instance.step i e))) = None ->
        exists m d, e = Instance.Update m
                    /\ quizData (Instance.props (Instance.step i e)) = Some d
                    /\ isAnswered d = true)
  /\ (forall d st, isAnswered d = true ->
        instantMessage d st = None
        /\ forall o, b_status (renderOption d st o) = status o
                     /\ forall b, ~ In (Instant, b)
                                       (b_badges (renderOption d st o))).
Proof.
  cbv zeta. repeat split.
  - intros d Hq Ha.
    destruct (overlay_inv_run es (Instance.mount p) (overlay_inv_mount p))
      as [Hd Ho].
    apply Ho. rewrite Hd, Hq. simpl. rewrite Ha. reflexivity.
  - intros e f. apply overlay_cleared_by.
  - apply (answered_view d st (mkOption [] [] normal) H).
  - apply (answered_view d st o H).
  - apply (answered_view d st o H).
Qed.

Example answered_question_view :
  render (withSend (msg ASSISTANT body_answered))
         (mkState (Some (lit "A"))
                  (Some (mkInstant (lit "A") false (lit "B"))))
  = QuizView (lit "What is 2+2?")
      [mkButton (lit "A") (lit "3") incorrect true [(Backend, BadgeWrong)];
       mkButton (lit "B") (lit "4") correct true [(Backend, BadgeCorrect)];
       mkButton (lit "C") (lit "5") normal true [];
       mkButton (lit "D") (lit "6") normal true []]
      None
      (Some (CROSS :: lit " Incorrect. The correct answer is B.")).
Proof. vm_compute. reflexivity. Qed.

Section TrimFacts.

Lemma hd_rev (s : jsstring) (d : cu) : hd d (rev s) = last s d.
Proof.
  induction s as [|c s IH]; [reflexivity|].
  destruct s as [|c' s]; [reflexivity|].
  change (last (c :: c' :: s) d) with (last (c' :: s) d). rewrite <- IH.
  simpl. destruct (rev s ++ [c']) eqn:E; [|reflexivity].
  destruct (rev s); discriminate.
Qed.


(** [trim] leaves alone a string that starts and ends with a character
    that is not white space. *)
Lemma trim_id (s : jsstring) :
  isSpace (hd 0 s) = false -> isSpace (last s 0) = false -> trim s = s.
Proof.
  intros Hh Hl. unfold trim.
  assert (E : trimStart s = s).
  { destruct s as [|c s]; [reflexivity|]. simpl in *. rewrite Hh. reflexivity. }
  rewrite E. unfold trimEnd. rewrite <- hd_rev in Hl.
  destruct (rev s) as [|e r] eqn:R.
  - rewrite <- (rev_involutive s), R. reflexivity.
  - simpl in *. rewrite Hl, <- R. apply rev_involutive.
Qed.

End TrimFacts.

Section OptionStepFacts.

Variables (L : cu) (ws0 ws1 txt : jsstring).
Hypothesis HL : isLetter L = true.
Hypothesis Hws0 : forallb isSpace ws0 = true.
Hypothesis Hne1 : ws1 <> [].
Hypothesis Hws1 : forallb isSpace ws1 = true.
Hypothesis Hne : txt <> [].
Hypothesis Hdot : forallb (mem Dot) txt = true.
Hypothesis Hhd : isSpace (hd 0 txt) = false.
Hypothesis Hlast : isSpace (last txt 0) = false.

Let rest : jsstring := L :: 46 :: ws1 ++ txt.





Lemma marked_fails (mark c : cu) (s : jsstring) :
  (c =? mark) = false -> exec (re_marked mark) (c :: s) = None.
Proof.
  intros H. unfold re_marked. rewrite exec_bol. cbn [run rep mem].
  rewrite H. reflexivity.
Qed.




End OptionStepFacts.


Section ScanOptionFacts.



End ScanOptionFacts.



(** C2, as stated, fails: four options indented by one space parse as a
    QuizQuestion although no line matches the line-anchored pattern. *)
Lemma C2_counterexample :
  let m := msg ASSISTANT body_indented in
  detected (withSend m) = true
  /\ quizData (withSend m) <> None
  /\ spec_detected m = false.
Proof. vm_compute. repeat split; discriminate. Qed.

(** A message of role system passes the guard as well. *)
Example system_message_parsed :
  quizData (withSend (msg SYSTEM body_question)) = Some quiz_question
  /\ spec_detected (msg SYSTEM body_question) = false.
Proof. vm_compute. split; reflexivity. Qed.

(** C2 (amended): a message passes the quiz guard if and only if its body
    holds, anywhere, a letter A to D, a full stop, white space and one
    more character that is not a line terminator, and its role is not
    user; only a message that passes the guard parses as a QuizQuestion,
    and a message of role user never does. *)
Theorem C2_detection_rule (p : Props) :
  (detected p = true <->
   optionPattern (content (message p)) /\ role (message p) <> USER)
  /\ (quizData p <> None -> detected p = true)
  /\ (role (message p) = USER -> quizData p = None).
Proof.
  assert (D : detected p = true <->
              optionPattern (content (message p)) /\ role (message p) <> USER).
  { unfold detected, isUser, safeContent.
    rewrite <- hasOptions_spec.
    destruct (hasOptions (content (message p))), (role (message p)); simpl;
      split; try discriminate; try tauto; try (intros [? ?]; congruence);
      intros _; split; congruence. }
  split; [exact D|]. split.
  - destruct (quizData p) as [d|] eqn:E; [|congruence].
    intros _. apply quizData_inv in E as [E _]. exact E.
  - intros H. unfold quizData, parseQuizQuestion, isUser. rewrite H.
    simpl. rewrite orb_true_r. reflexivity.
Qed.

Section HiddenMarkerFacts.

Lemma hasMarker_length (s : jsstring) :
  hasMarker s -> (11 <= List.length s)%nat.
Proof.
  intros [pre [L [post [_ ->]]]]. rewrite !length_app. simpl. lia.
Qed.

Lemma hasMarker_suffix (a s : jsstring) : hasMarker s -> hasMarker (a ++ s).
Proof.
  intros H. rewrite <- (app_nil_r s). apply hasMarker_infix, H.
Qed.

(** A marker in the joined question text lies inside one of its lines. *)
Lemma hasMarker_join (ls : list jsstring) :
  hasMarker (join_nl ls) -> exists l, In l ls /\ hasMarker l.
Proof.
  induction ls as [|l ls IH]; intros H.
  - apply hasMarker_length in H. simpl in H. lia.
  - destruct ls as [|l' ls]; [exists l; simpl; auto|].
    change (join_nl (l :: l' :: ls)) with (l ++ NL :: join_nl (l' :: ls)) in H.
    destruct H as [pre [L [post [HL E]]]].
    apply infix_across in E as [[post' E] | [pre' E]];
      [| |apply marker_no_nl, HL].
    + exists l. split; [left; reflexivity|]. exists pre, L, post'. auto.
    + destruct IH as [x [Hx Hm]]; [exists pre', L, post; auto|].
      exists x. split; [right; exact Hx | exact Hm].
Qed.

Lemma reaches_no_marker (l : jsstring) :
  reachesOptions l -> ~ hasMarker l /\ ~ hasMarker (trim l).
Proof.
  intros [H _]. apply exec_marker_none in H. split; [|exact H].
  rewrite hasMarker_trim. exact H.
Qed.

(** The text of an option is a piece of its line. *)
Lemma option_of_no_marker (l : jsstring) (o : QuizOption) :
  reachesOptions l -> option_of l o ->
  ~ hasMarker (letter o) /\ ~ hasMarker (text o).
Proof.
  intros Hr Ho. destruct (reaches_no_marker l Hr) as [N1 N2].
  assert (forall L : cu, ~ hasMarker [L]) as NL
    by (intros L H; apply hasMarker_length in H; simpl in H; lia).
  assert (forall s txt pre, (s = trim l \/ s = l) -> s = pre ++ txt ->
                            ~ hasMarker (trim txt)) as K.
  { intros s txt pre Hs E H. rewrite <- hasMarker_trim in H.
    apply (hasMarker_suffix pre) in H. rewrite <- E in H.
    destruct Hs; subst s; auto. }
  destruct Ho as [s L txt Hs [w0 [w1 [E _]]] | s L txt Hs [w0 [w1 [E _]]]
                 | L txt [w1 [E _]]]; cbn [letter text]; split; auto.
  - apply (K s txt (CHECK :: w0 ++ L :: 46 :: w1) Hs).
    rewrite E. cbn [app]. rewrite <- app_assoc. reflexivity.
  - apply (K s txt (CROSS :: w0 ++ L :: 46 :: w1) Hs).
    rewrite E. cbn [app]. rewrite <- app_assoc. reflexivity.
  - apply (K (trim l) txt (L :: 46 :: w1)); auto.
Qed.

(** A line with a marker only sets the hidden letter. *)
Lemma marker_line_step (st : Scan) (line : jsstring) :
  hasMarker line ->
  exists L, isLetter L = true
            /\ scanLine st line
               = mkScan (questionLines st) (s_options st) (feedbackMessage st)
                        (s_isAnswered st) [L] (foundOptions st).
Proof.
  intros H. apply hasMarker_trim in H. unfold scanLine.
  destruct (exec re_marker (trim line)) as [m|] eqn:E.
  - apply exec_marker_inv in E as [pre [L [post [HL [_ ->]]]]].
    exists L. auto.
  - apply exec_marker_none in E. contradiction.
Qed.

End HiddenMarkerFacts.

(** C3, as stated, fails: a stored question that lost an option does not
    parse, and its body is shown as it is, marker included. *)
Lemma C3_counterexample :
  let p := withSend (msg ASSISTANT body_three) in
  render p state0 = TextView body_three
  /\ showsText (lit "[CORRECT:") (render p state0) = true.
Proof. vm_compute. split; reflexivity. Qed.

(** The feedback line is outside this guarantee: deleting the asterisks
    can put a marker together. *)
Example feedback_can_show_marker :
  exists d, quizData (withSend (msg ASSISTANT body_split_marker)) = Some d
            /\ feedback d = lit "[CORRECT:B] " ++ CHECK :: lit " Correct!".
Proof. eexists. vm_compute. split; reflexivity. Qed.

(** C3 (amended): when a message parses as a QuizQuestion, the question
    text and the letter and text of every option button hold no marker
    [CORRECT:<Letter>] with a letter A to D: a line that holds one sets
    the hidden letter and adds nothing to the question text or to the
    options. *)
Theorem C3_marker_not_in_question_or_options (p : Props) (d : QuizData) :
  quizData p = Some d ->
  (forall st, exists i b,
      render p st = QuizView (question d) (map (renderOption d st) (options d)) i b)
  /\ test re_marker (question d) = false
  /\ (forall st, Forall (fun x => test re_marker (b_letter x) = false
                                  /\ test re_marker (b_text x) = false)
                        (map (renderOption d st) (options d)))
  /\ (forall st line, hasMarker line ->
        exists L, isLetter L = true
                  /\ scanLine st line
                     = mkScan (questionLines st) (s_options st)
                              (feedbackMessage st) (s_isAnswered st) [L]
                              (foundOptions st)).
Proof.
  intros H. split; [|split; [|split]].
  - intros st. unfold render. rewrite H. eauto.
  - apply quizData_inv in H as [_ [_ ->]]. cbn [question].
    apply test_marker_false. intros M.
    apply hasMarker_join in M as [l [Hl M]].
    destruct (scan_inv_scanLines (split_nl (safeContent p))) as [Hq _].
    rewrite Forall_forall in Hq. destruct (Hq l Hl) as [_ Hr].
    apply reaches_no_marker in Hr as [N _]. contradiction.
  - intros st. apply quizData_inv in H as [_ [_ ->]]. cbn [options].
    destruct (scan_inv_scanLines (split_nl (safeContent p))) as [_ Ho].
    rewrite Forall_map. eapply Forall_impl; [|exact Ho].
    intros o [l [_ [Hr Hof]]]. cbn [renderOption b_letter b_text].
    rewrite !test_marker_false. apply (option_of_no_marker l o Hr Hof).
  - intros st line. apply marker_line_step.
Qed.

Lemma C3_witness :
  let p := withSend (msg ASSISTANT body_question) in
  (forall st, exists i b,
      render p st = QuizView (question quiz_question)
                             (map (renderOption quiz_question st)
                                  (options quiz_question)) i b)
  /\ test re_marker (question quiz_question) = false
  /\ (forall st, Forall (fun x => test re_marker (b_letter x) = false
                                  /\ test re_marker (b_text x) = false)
                        (map (renderOption quiz_question st)
                             (options quiz_question)))
  /\ (forall st line, hasMarker line ->
        exists L, isLetter L = true
                  /\ scanLine st line
                     = mkScan (questionLines st) (s_options st)
                              (feedbackMessage st) (s_isAnswered st) [L]
                              (foundOptions st)).
Proof.
  apply (C3_marker_not_in_question_or_options
           (withSend (msg ASSISTANT body_question)) quiz_question).
  vm_compute. reflexivity.
Defined.

(** C7, as stated, fails: a line that holds the feedback phrase and the
    hidden marker is taken as a marker line, and the body parses as not
    answered with empty feedback. *)
Lemma C7_counterexample :
  let line := CHECK :: lit " Correct! [CORRECT:B]" in
  In line (split_nl body_feedback_marker)
  /\ isFeedbackLine (trim line) = true
  /\ quizData (withSend (msg ASSISTANT body_feedback_marker))
     = Some quiz_question
  /\ isAnswered quiz_question = false
  /\ feedback quiz_question = [].
Proof. vm_compute. repeat split; auto 10. Qed.

(** The feedback shown is the trimmed line without its asterisks. *)
Example bold_feedback_line :
  exists d, quizData (withSend (msg ASSISTANT body_bold_feedback)) = Some d
            /\ isAnswered d = true
            /\ feedback d = CHECK :: lit " Correct!"
            /\ In (lit "**" ++ CHECK :: lit " Correct!**")
                  (split_nl body_bold_feedback).
Proof. vm_compute. eexists. repeat split; auto 10. Qed.

Section FeedbackFacts.

Lemma existsb_false_filter (A : Type) (f : A -> bool) (l : list A) :
  existsb f l = false -> filter f l = [].
Proof.
  induction l as [|x l IH]; simpl; [reflexivity|].
  destruct (f x); simpl; [discriminate | exact IH].
Qed.

Lemma reaches_not_feedback (l : jsstring) :
  reachesOptions l -> isFeedbackLine (trim l) = false.
Proof. intros [_ [H _]]. exact H. Qed.

End FeedbackFacts.

(** C7 (amended): when a body parses as a QuizQuestion, it is answered
    exactly when one of its lines holds the feedback phrase and no
    hidden marker; the feedback is the last such line, trimmed and with
    every pair of asterisks removed; no line with the feedback phrase
    adds to the question text or to the options; a body without such a
    line parses as not answered with empty feedback. *)
Theorem C7_feedback_lines (p : Props) (d : QuizData) :
  quizData p = Some d ->
  let lines := split_nl (safeContent p) in
  isAnswered d = existsb isFeedbackOnly lines
  /\ feedback d
     = last (map (fun l => removeDoubleStars (trim l))
                 (filter isFeedbackOnly lines)) []
  /\ (exists qs, question d = join_nl qs
                 /\ Forall (fun l => In l lines
                                     /\ isFeedbackLine (trim l) = false) qs)
  /\ Forall (fun o => exists l, In l lines
                                /\ isFeedbackLine (trim l) = false
                                /\ option_of l o) (options d)
  /\ (existsb isFeedbackOnly lines = false ->
      isAnswered d = false /\ feedback d = []).
Proof.
  intros H. cbv zeta. apply quizData_inv in H as [_ [_ ->]].
  cbn [isAnswered feedback question options].
  destruct (fold_feedback (split_nl (safeContent p)) scan0) as [Ha Hf].
  destruct (scan_inv_scanLines (split_nl (safeContent p))) as [Hq Ho].
  unfold scanLines. rewrite Ha, Hf. cbn [s_isAnswered scan0 orb feedbackMessage].
  repeat split.
  - exists (questionLines (fold_left scanLine (split_nl (safeContent p)) scan0)).
    split; [reflexivity|]. eapply Forall_impl; [|exact Hq].
    intros l [Hl Hr]. split; [exact Hl | apply reaches_not_feedback, Hr].
  - eapply Forall_impl; [|exact Ho].
    intros o [l [Hl [Hr Hof]]]. exists l.
    repeat split; [exact Hl | apply reaches_not_feedback, Hr | exact Hof].
  - assumption.
  - rewrite existsb_false_filter by assumption. reflexivity.
Qed.

Lemma C7_witness :
  let p := withSend (msg ASSISTANT body_bold_feedback) in
  let d := mkQuizData (lit "What is 2+2?")
             [optA; mkOption (lit "B") (lit "4") correct; optC; optD]
             (CHECK :: lit " Correct!") true (lit "B") in
  let lines := split_nl (safeContent p) in
  isAnswered d = existsb isFeedbackOnly lines
  /\ feedback d
     = last (map (fun l => removeDoubleStars (trim l))
                 (filter isFeedbackOnly lines)) []
  /\ (exists qs, question d = join_nl qs
                 /\ Forall (fun l => In l lines
                                     /\ isFeedbackLine (trim l) = false) qs)
  /\ Forall (fun o => exists l, In l lines
                                /\ isFeedbackLine (trim l) = false
                                /\ option_of l o) (options d)
  /\ (existsb isFeedbackOnly lines = false ->
      isAnswered d = false /\ feedback d = []).
Proof.
  apply (C7_feedback_lines
           (withSend (msg ASSISTANT body_bold_feedback))
           (mkQuizData (lit "What is 2+2?")
              [optA; mkOption (lit "B") (lit "4") correct; optC; optD]
              (CHECK :: lit " Correct!") true (lit "B"))).
  vm_compute. reflexivity.
Defined.

(** C8: when the latest message is an assistant message whose content
    holds the text Quiz Complete, the quiz-active flag is set to false
    and the stop control is not shown, also when the content matches the
    quiz-question pattern; the body "Quiz Complete! You scored 4/5."
    parses to no QuizQuestion and leaves the quiz inactive. *)
Theorem C8_quiz_complete_ends_quiz
        (messages : list Message) (m : Message) (st : ChatWindow.State) :
  ChatWindow.lastMessage messages = Some m ->
  role m = ASSISTANT ->
  (exists a b, content m = a ++ lit "Quiz Complete" ++ b) ->
  ChatWindow.isQuizActive (ChatWindow.detectQuiz messages st) = false
  /\ ChatWindow.stopControlShown (ChatWindow.detectQuiz messages st) = false
  /\ parseQuizQuestion false body_complete = None
  /\ ChatWindow.isQuizActive
       (ChatWindow.detectQuiz [msg ASSISTANT body_complete] st) = false.
Proof.
  intros Hl Hr Hc. apply includes_app in Hc.
  assert (E : ChatWindow.isQuizActive (ChatWindow.detectQuiz messages st) = false).
  { unfold ChatWindow.detectQuiz. rewrite Hl.
    destruct messages as [|x xs]; [discriminate Hl|].
    cbn [List.length Nat.ltb Nat.leb]. rewrite Hr, Hc. cbn [role_eqb].
    cbn [ChatWindow.isQuizActive negb]. apply andb_false_r. }
  repeat split; try exact E; vm_compute; reflexivity.
Qed.

Lemma C8_witness :
  let st := ChatWindow.state0 in
  let messages := [msg USER (lit "B"); msg ASSISTANT body_last_question] in
  ChatWindow.isQuizActive (ChatWindow.detectQuiz messages st) = false
  /\ ChatWindow.stopControlShown (ChatWindow.detectQuiz messages st) = false
  /\ parseQuizQuestion false body_complete = None
  /\ ChatWindow.isQuizActive
       (ChatWindow.detectQuiz [msg ASSISTANT body_complete] st) = false.
Proof.
  apply (C8_quiz_complete_ends_quiz
           [msg USER (lit "B"); msg ASSISTANT body_last_question]
           (msg ASSISTANT body_last_question) ChatWindow.state0);
    try reflexivity.
  exists (lit "Question 5: "), (skipn 25 body_last_question). reflexivity.
Defined.

(** The last question alone would count as a running quiz. *)
Example last_question_matches_pattern :
  test ChatWindow.re_quizQuestion body_last_question
  && includes (lit "Question") body_last_question = true.
Proof. vm_compute. reflexivity. Qed.

Section LoadFacts.

Import Home.

Lemma sanitized_filter (l : list Message) : sanitized l = filter keep l.
Proof.
  unfold sanitized. fold keep. induction (filter keep l) as [|m r IH];
    [reflexivity|].
  cbn [map]. rewrite IH. destruct m; reflexivity.
Qed.

Lemma sanitized_app (a b : list Message) :
  sanitized (a ++ b) = sanitized a ++ sanitized b.
Proof. rewrite !sanitized_filter. apply filter_app. Qed.

End LoadFacts.

(** C10: when the messages of a chat are loaded, every message whose
    content starts with FEEDBACK: is filtered out, so the list that is
    displayed holds no such message; every other message is kept, in its
    original place among the others; an answer whose response starts
    with FEEDBACK: is displayed through the same reload. *)
Theorem C10_feedback_messages_filtered
        (chatMessages messages : list Message) :
  let shown := Home.loadMessages (Some chatMessages) messages in
  Forall (fun m => startsWith (lit "FEEDBACK:") (content m) = false) shown
  /\ shown = filter keep chatMessages
  /\ (forall l1 m l2, chatMessages = l1 ++ m :: l2 ->
        Home.loadMessages (Some chatMessages) messages
        = Home.loadMessages (Some l1) messages
          ++ (if startsWith (lit "FEEDBACK:") (content m) then [] else [m])
          ++ Home.loadMessages (Some l2) messages)
  /\ (forall response,
        startsWith (lit "FEEDBACK:")
                   (content (Home.bot_message response)) = true ->
        Home.handleResponse response (Some chatMessages) messages = shown).
Proof.
  cbv zeta. cbn [Home.loadMessages]. repeat split.
  - rewrite sanitized_filter. apply Forall_forall. intros m H.
    apply filter_In in H as [_ H]. unfold keep in H.
    apply negb_true_iff in H. exact H.
  - apply sanitized_filter.
  - intros l1 m l2 ->. rewrite sanitized_app.
    change (m :: l2) with ([m] ++ l2). rewrite sanitized_app.
    f_equal. f_equal. rewrite sanitized_filter. cbn [filter]. unfold keep.
    destruct (startsWith (lit "FEEDBACK:") (content m)); reflexivity.
  - intros response H. unfold Home.handleResponse. rewrite H. reflexivity.
Qed.

Example load_drops_feedback :
  Home.loadMessages
    (Some [msg USER (lit "B"); feedback_message; msg ASSISTANT body_question])
    []
  = [msg USER (lit "B"); msg ASSISTANT body_question].
Proof. vm_compute. reflexivity. Qed.

Section TrimShape.

Lemma trimStart_head (s : jsstring) :
  isSpace (hd 0 (trimStart s)) = false.
Proof.
  induction s as [|c s IH]; simpl; [reflexivity|].
  destruct (isSpace c) eqn:E; [exact IH | simpl; exact E].
Qed.

Lemma trimEnd_head (s : jsstring) :
  trimEnd s <> [] -> hd 0 (trimEnd s) = hd 0 s.
Proof.
  intros H. destruct (trimEnd_prefix s) as [ws [E _]].
  destruct (trimEnd s) as [|c r]; [congruence|]. rewrite E. reflexivity.
Qed.

Lemma trimEnd_last (s : jsstring) : isSpace (last (trimEnd s) 0) = false.
Proof.
  unfold trimEnd. rewrite <- hd_rev, rev_involutive. apply trimStart_head.
Qed.

(** What [trim] returns starts and ends with a character that is not
    white space. *)
Lemma trim_ends (s : jsstring) :
  isSpace (hd 0 (trim s)) = false /\ isSpace (last (trim s) 0) = false.
Proof.
  unfold trim. split; [|apply trimEnd_last].
  destruct (trimEnd (trimStart s)) eqn:E; [reflexivity|].
  rewrite <- E, trimEnd_head by congruence. apply trimStart_head.
Qed.

Lemma trim_idem (s : jsstring) : trim (trim s) = trim s.
Proof. apply trim_id; apply trim_ends. Qed.

Lemma forallb_infix (f : cu -> bool) (a s b : jsstring) :
  forallb f (a ++ s ++ b) = true -> forallb f s = true.
Proof.
  rewrite !forallb_app, !andb_true_iff. tauto.
Qed.

Lemma trim_forallb (f : cu -> bool) (s : jsstring) :
  forallb f s = true -> forallb f (trim s) = true.
Proof.
  intros H. destruct (trim_infix s) as [a [b [E _]]].
  rewrite E in H. eapply forallb_infix, H.
Qed.

End TrimShape.

Section SplitJoin.

Lemma split_nl_nonempty (s : jsstring) : split_nl s <> [].
Proof.
  induction s as [|c s IH]; simpl; [discriminate|].
  destruct (c =? NL); [discriminate|].
  destruct (split_nl s); [congruence | discriminate].
Qed.

Lemma split_nl_app (a b : jsstring) :
  split_nl (a ++ NL :: b) = split_nl a ++ split_nl b.
Proof.
  induction a as [|c a IH]; [reflexivity|].
  cbn [app split_nl]. rewrite IH.
  destruct (c =? NL); [reflexivity|].
  destruct (split_nl a) eqn:E; [|reflexivity].
  exfalso. exact (split_nl_nonempty a E).
Qed.

Lemma split_nl_line (x : jsstring) : ~ In NL x -> split_nl x = [x].
Proof.
  induction x as [|c x IH]; intros H; [reflexivity|].
  cbn [split_nl]. destruct (N.eqb_spec c NL) as [->|_].
  - exfalso. apply H. left. reflexivity.
  - rewrite IH; [reflexivity|]. intros K. apply H. right. exact K.
Qed.

(** Splitting the joined lines gives the lines back. *)
Lemma split_join (ls : list jsstring) :
  ls <> [] -> Forall (fun l => ~ In NL l) ls -> split_nl (join_nl ls) = ls.
Proof.
  induction ls as [|l ls IH]; intros Hne H; [congruence|].
  inversion H as [|? ? Hl Hls]; subst.
  destruct ls as [|l' ls]; [apply split_nl_line, Hl|].
  change (join_nl (l :: l' :: ls)) with (l ++ NL :: join_nl (l' :: ls)).
  rewrite split_nl_app, split_nl_line by exact Hl.
  rewrite IH; [reflexivity | discriminate | exact Hls].
Qed.

(** A line of a body is a piece of the body. *)
Lemma split_nl_infix (s l : jsstring) :
  In l (split_nl s) -> exists a b, s = a ++ l ++ b.
Proof.
  revert l. induction s as [|c s IH]; intros l H.
  - simpl in H. destruct H as [<-|[]]. exists [], []. reflexivity.
  - cbn [split_nl] in H. destruct (c =? NL) eqn:E.
    + destruct H as [<-|H].
      * exists [], (c :: s). reflexivity.
      * destruct (IH l H) as [a [b ->]]. exists (c :: a), b. reflexivity.
    + destruct (split_nl s) as [|l0 ls] eqn:S;
        [exfalso; exact (split_nl_nonempty s S)|].
      destruct H as [<-|H].
      * destruct (IH l0 (or_introl eq_refl)) as [a [b Es]].
        (* l0 is the first line: a prefix of s *)
        assert (P : exists b', s = l0 ++ b').
        { clear -S. revert l0 ls S. induction s as [|d s IHs]; intros l0 ls S.
          - simpl in S. injection S as <- <-. exists []. reflexivity.
          - cbn [split_nl] in S. destruct (d =? NL).
            + injection S as <- _. exists (d :: s). reflexivity.
            + destruct (split_nl s) as [|l1 ls1] eqn:S1;
                [exfalso; exact (split_nl_nonempty s S1)|].
              injection S as <- _.
              destruct (IHs l1 ls1 eq_refl) as [b' ->].
              exists b'. reflexivity. }
        destruct P as [b' ->]. exists [], b'. reflexivity.
      * destruct (IH l (or_intror H)) as [a [b ->]].
        exists (c :: a), b. reflexivity.
Qed.

End SplitJoin.

Section ParserShape.

Lemma optionPattern_infix (a s b : jsstring) :
  optionPattern s -> optionPattern (a ++ s ++ b).
Proof.
  intros [pre [L [ws [c [post [-> H]]]]]].
  exists (a ++ pre), L, ws, c, (post ++ b). split; [|exact H].
  rewrite <- !app_assoc. cbn [app]. rewrite <- !app_assoc. reflexivity.
Qed.

Lemma marked_form_pattern (mark : cu) (s : jsstring) (L : cu) (txt : jsstring) :
  marked_form mark s L txt -> optionPattern s.
Proof.
  intros [w0 [w1 [-> [_ [HL [Hne [Hw [Ht Hd]]]]]]]].
  destruct txt as [|c rest]; [congruence|].
  exists (mark :: w0), L, w1, c, rest. repeat split; auto.
  cbn [forallb mem] in Hd. apply andb_true_iff in Hd as [Hc _].
  apply negb_true_iff in Hc. exact Hc.
Qed.

Lemma plain_form_pattern (s : jsstring) (L : cu) (txt : jsstring) :
  plain_form s L txt -> optionPattern s.
Proof.
  intros [w1 [-> [HL [Hne [Hw [Ht Hd]]]]]].
  destruct txt as [|c rest]; [congruence|].
  exists [], L, w1, c, rest. repeat split; auto.
  cbn [forallb mem] in Hd. apply andb_true_iff in Hd as [Hc _].
  apply negb_true_iff in Hc. exact Hc.
Qed.

(** A line that gives an option holds the pattern of the guard. *)
Lemma option_of_pattern (l : jsstring) (o : QuizOption) :
  option_of l o -> optionPattern l.
Proof.
  assert (T : optionPattern (trim l) -> optionPattern l).
  { intros H. destruct (trim_infix l) as [a [b [E _]]]. rewrite E.
    apply optionPattern_infix, H. }
  intros [s L txt [->| ->] F | s L txt [->| ->] F | L txt F].
  - apply T. eapply marked_form_pattern, F.
  - eapply marked_form_pattern, F.
  - apply T. eapply marked_form_pattern, F.
  - eapply marked_form_pattern, F.
  - apply T. eapply plain_form_pattern, F.
Qed.

(** The text of an option is trimmed and lies on one line. *)
Lemma option_of_text (l : jsstring) (o : QuizOption) :
  option_of l o ->
  trim (text o) = text o
  /\ forallb (fun c => negb (isLineTerminator c)) (text o) = true.
Proof.
  assert (D : forall txt, forallb (mem Dot) txt = true ->
                          forallb (fun c => negb (isLineTerminator c))
                                  (trim txt) = true)
    by (intros txt H; apply trim_forallb; exact H).
  intros [s L txt _ [? [? [_ [_ [_ [_ [_ [_ Hd]]]]]]]]
         | s L txt _ [? [? [_ [_ [_ [_ [_ [_ Hd]]]]]]]]
         | L txt [? [_ [_ [_ [_ [_ Hd]]]]]]];
    cbn [text]; split; auto using trim_idem.
Qed.

(** The guard never rejects a body whose scan collects an option. *)
Lemma scan_option_hasOptions (content : jsstring) :
  s_options (scanLines (split_nl content)) <> [] ->
  hasOptions content = true.
Proof.
  intros H. destruct (scan_inv_scanLines (split_nl content)) as [_ Ho].
  destruct (s_options (scanLines (split_nl content))) as [|o os];
    [congruence|].
  inversion Ho as [|? ? [l [Hl [_ Hof]]] _]; subst.
  apply hasOptions_spec. apply split_nl_infix in Hl as [a [b ->]].
  apply optionPattern_infix. eapply option_of_pattern, Hof.
Qed.

(** The parser as a function of the scan alone. *)
Lemma parse_exact (isUser : bool) (content : jsstring) :
  parseQuizQuestion isUser content
  = let st := scanLines (split_nl content) in
    if negb isUser && (List.length (s_options st) =? 4)%nat
    then Some (mkQuizData (join_nl (questionLines st)) (s_options st)
                          (feedbackMessage st) (s_isAnswered st)
                          (s_correctAnswerLetter st))
    else None.
Proof.
  unfold parseQuizQuestion. cbv zeta.
  destruct isUser; [rewrite orb_true_r; reflexivity|].
  rewrite orb_false_r. cbn [negb andb].
  destruct (Nat.eqb_spec
              (List.length (s_options (scanLines (split_nl content)))) 4)
    as [E|E].
  - rewrite scan_option_hasOptions; [reflexivity|].
    intros N. rewrite N in E. discriminate.
  - destruct (negb (hasOptions content)); reflexivity.
Qed.

End ParserShape.

(** X1: a non-user message parses as a QuizQuestion exactly when the line
    scan collects four options: the pattern guard at the head of the
    parser never rejects such a body. *)
Theorem parse_succeeds_iff_four_options (p : Props) :
  quizData p <> None <->
  role (message p) <> USER
  /\ List.length (s_options (scanLines (split_nl (safeContent p)))) = 4%nat.
Proof.
  unfold quizData. rewrite parse_exact. cbv zeta. unfold isUser.
  destruct (Nat.eqb_spec
              (List.length (s_options (scanLines (split_nl (safeContent p)))))
              4) as [E|E];
    destruct (role (message p)); cbn [role_eqb negb andb];
    split; try congruence; try (intros [? ?]; congruence);
    intros _; split; congruence.
Qed.

(** X2: every option of a parsed question has a letter that is one
    character among A to D and a text that is trimmed and holds no line
    terminator. *)
Theorem parsed_options_shape (p : Props) (d : QuizData) :
  quizData p = Some d ->
  Forall (fun o => (exists L, isLetter L = true /\ letter o = [L])
                   /\ trim (text o) = text o
                   /\ forallb (fun c => negb (isLineTerminator c)) (text o)
                      = true)
         (options d).
Proof.
  intros H. apply quizData_inv in H as [_ [_ ->]]. cbn [options].
  destruct (scan_inv_scanLines (split_nl (safeContent p))) as [_ Ho].
  eapply Forall_impl; [|exact Ho]. cbv beta.
  intros o [l [_ [_ Hof]]]. split.
  - eapply option_of_letter, Hof.
  - eapply option_of_text, Hof.
Qed.

Lemma parsed_options_shape_witness :
  Forall (fun o => (exists L, isLetter L = true /\ letter o = [L])
                   /\ trim (text o) = text o
                   /\ forallb (fun c => negb (isLineTerminator c)) (text o)
                      = true)
         (options quiz_question).
Proof.
  apply (parsed_options_shape (withSend (msg ASSISTANT body_question))
                              quiz_question).
  vm_compute. reflexivity.
Defined.

Section HiddenLetter.

Lemma scanLine_marker_letter (st : Scan) (line : jsstring) :
  hasMarker line ->
  exists L, isLetter L = true /\ s_correctAnswerLetter (scanLine st line) = [L].
Proof.
  intros H. destruct (marker_line_step st line H) as [L [HL ->]].
  exists L. auto.
Qed.

Lemma scanLine_letter_kept (st : Scan) (line : jsstring) :
  ~ hasMarker line ->
  s_correctAnswerLetter (scanLine st line) = s_correctAnswerLetter st.
Proof.
  intros H. apply scanLine_letter. apply exec_marker_none.
  rewrite <- hasMarker_trim. exact H.
Qed.

Lemma hasMarker_dec (l : jsstring) : hasMarker l \/ ~ hasMarker l.
Proof.
  destruct (test re_marker l) eqn:E.
  - left. destruct (exec_marker_none l) as [_ K].
    unfold test in E. destruct (exec re_marker l) eqn:X; [|discriminate].
    apply exec_marker_inv in X as [pre [L [post [HL [-> _]]]]].
    exists pre, L, post. auto.
  - right. apply test_marker_false, E.
Qed.

Lemma fold_letter_shape (ls : list jsstring) : forall st,
  (s_correctAnswerLetter st = []
   \/ exists L, isLetter L = true /\ s_correctAnswerLetter st = [L]) ->
  (s_correctAnswerLetter (fold_left scanLine ls st) = []
   \/ exists L, isLetter L = true
                /\ s_correctAnswerLetter (fold_left scanLine ls st) = [L]).
Proof.
  induction ls as [|l ls IH]; intros st H; [exact H|].
  cbn [fold_left]. apply IH.
  destruct (hasMarker_dec l) as [M|M].
  - right. apply scanLine_marker_letter, M.
  - rewrite scanLine_letter_kept by exact M. exact H.
Qed.

Lemma fold_letter_set (ls : list jsstring) : forall st,
  s_correctAnswerLetter st <> [] ->
  s_correctAnswerLetter (fold_left scanLine ls st) <> [].
Proof.
  induction ls as [|l ls IH]; intros st H; [exact H|].
  cbn [fold_left]. apply IH.
  destruct (hasMarker_dec l) as [M|M].
  - destruct (scanLine_marker_letter st l M) as [L [_ ->]]. discriminate.
  - rewrite scanLine_letter_kept by exact M. exact H.
Qed.

Lemma fold_letter_exists (ls : list jsstring) : forall st,
  Exists hasMarker ls ->
  s_correctAnswerLetter (fold_left scanLine ls st) <> [].
Proof.
  induction ls as [|l ls IH]; intros st H; [inversion H|].
  cbn [fold_left]. destruct (hasMarker_dec l) as [M|M].
  - apply fold_letter_set.
    destruct (scanLine_marker_letter st l M) as [L [_ ->]]. discriminate.
  - apply IH. inversion H; [contradiction | assumption].
Qed.

Lemma marker_lines_dec (ls : list jsstring) :
  Exists hasMarker ls \/ Forall (fun l => ~ hasMarker l) ls.
Proof.
  induction ls as [|l ls IH].
  - right. constructor.
  - destruct (hasMarker_dec l) as [M|M]; [left; constructor; exact M|].
    destruct IH as [IH|IH]; [left; apply Exists_cons_tl, IH|].
    right. constructor; assumption.
Qed.

End HiddenLetter.

(** X3: the hidden letter of a parsed question is the empty string or
    one letter among A to D, and it is not empty exactly when some line
    of the body holds a marker [CORRECT:<Letter>]. *)
Theorem hidden_letter_shape (p : Props) (d : QuizData) :
  quizData p = Some d ->
  (correctAnswerLetter d = []
   \/ exists L, isLetter L = true /\ correctAnswerLetter d = [L])
  /\ (correctAnswerLetter d <> [] <->
      Exists hasMarker (split_nl (safeContent p))).
Proof.
  intros H. apply quizData_inv in H as [_ [_ ->]]. cbn [correctAnswerLetter].
  unfold scanLines. split; [apply fold_letter_shape; left; reflexivity|].
  split.
  - intros N.
    destruct (marker_lines_dec (split_nl (safeContent p))) as [D|D];
      [exact D|]. exfalso. apply N.
    rewrite fold_letter; [reflexivity|].
    eapply Forall_impl; [|exact D]. intros l K.
    apply exec_marker_none. rewrite <- hasMarker_trim. exact K.
  - apply fold_letter_exists.
Qed.

Lemma hidden_letter_shape_witness :
  (correctAnswerLetter quiz_question = []
   \/ exists L, isLetter L = true /\ correctAnswerLetter quiz_question = [L])
  /\ (correctAnswerLetter quiz_question <> [] <->
      Exists hasMarker
             (split_nl (safeContent (withSend (msg ASSISTANT body_question))))).
Proof.
  apply (hidden_letter_shape (withSend (msg ASSISTANT body_question))
                             quiz_question).
  vm_compute. reflexivity.
Defined.

Section IgnoredLines.

Lemma trim_nil_blank (x : jsstring) : trim x = [] -> forallb isSpace x = true.
Proof.
  intros H. destruct (trimStart_suffix x) as [ws [E Hws]].
  destruct (trimStart x) as [|c r] eqn:T.
  - rewrite app_nil_r in E. subst x. exact Hws.
  - exfalso. pose proof (trimStart_head x) as Hc. rewrite T in Hc. simpl in Hc.
    unfold trim in H. rewrite T in H.
    destruct (trimEnd_keep [] c r Hc) as [r' K]. simpl in K.
    rewrite K in H. discriminate.
Qed.

Lemma marked_fails_blank (mark : cu) (x : jsstring) :
  isSpace mark = false -> forallb isSpace x = true ->
  exec (re_marked mark) x = None.
Proof.
  intros Hm Hx. destruct x as [|c x].
  - unfold re_marked. rewrite exec_bol. reflexivity.
  - apply marked_fails. cbn [forallb] in Hx.
    apply andb_true_iff in Hx as [Hc _].
    destruct (N.eqb_spec c mark) as [->|_]; [congruence | reflexivity].
Qed.

Lemma scanLine_ignored (st : Scan) (x : jsstring) :
  ignoredLine x -> scanLine st x = st.
Proof.
  intros [B | [M [F P]]]; unfold scanLine.
  - pose proof (trim_nil_blank x B) as Hx. rewrite B.
    change (exec re_marker []) with (@None (list jsstring)).
    change (isFeedbackLine []) with false.
    change (isFooterLine []) with false.
    unfold optionStep.
    rewrite (marked_fails_blank CHECK x eq_refl Hx).
    rewrite (marked_fails_blank CROSS x eq_refl Hx).
    rewrite (marked_fails_blank CHECK [] eq_refl eq_refl).
    rewrite (marked_fails_blank CROSS [] eq_refl eq_refl).
    cbn [orElse].
    change (exec re_normal []) with (@None (list jsstring)).
    cbn [truthy]. rewrite andb_false_r. reflexivity.
  - assert (E : exec re_marker (trim x) = None)
      by (apply exec_marker_none; rewrite <- hasMarker_trim; exact M).
    rewrite E, F, P. reflexivity.
Qed.

Lemma scanLines_ignored (l1 l2 : list jsstring) (x : jsstring) :
  ignoredLine x -> scanLines (l1 ++ x :: l2) = scanLines (l1 ++ l2).
Proof.
  intros H. unfold scanLines. rewrite !fold_left_app. cbn [fold_left].
  rewrite scanLine_ignored by exact H. reflexivity.
Qed.

End IgnoredLines.

(** X4: a blank line, or a prompt line ("Type your answer", "or 'stop'
    to end") without marker and feedback phrase, changes nothing: the
    body with such a line put between any two of its lines parses to the
    same result as the body without it. *)
Theorem ignored_line_keeps_parse
        (isUser : bool) (l1 l2 : list jsstring) (x : jsstring) :
  l1 ++ l2 <> [] ->
  Forall (fun l => ~ In NL l) (l1 ++ x :: l2) ->
  ignoredLine x ->
  parseQuizQuestion isUser (join_nl (l1 ++ x :: l2))
  = parseQuizQuestion isUser (join_nl (l1 ++ l2)).
Proof.
  intros Hne Hnl Hx. rewrite !parse_exact. cbv zeta.
  assert (H2 : Forall (fun l => ~ In NL l) (l1 ++ l2)).
  { apply Forall_app in Hnl as [A B]. inversion B; subst.
    apply Forall_app. auto. }
  rewrite (split_join (l1 ++ x :: l2)) by (try exact Hnl; destruct l1; discriminate).
  rewrite (split_join (l1 ++ l2) Hne H2).
  rewrite scanLines_ignored by exact Hx. reflexivity.
Qed.

Lemma ignored_line_keeps_parse_witness :
  parseQuizQuestion false
    (join_nl (split_nl body_question ++ [footer_line]))
  = parseQuizQuestion false (join_nl (split_nl body_question ++ [])).
Proof.
  apply (ignored_line_keeps_parse false (split_nl body_question) []
                                  footer_line).
  - vm_compute. discriminate.
  - vm_compute.
    repeat (constructor;
            [intros H; repeat (destruct H as [H|H]; [discriminate H|]);
             exact H|]).
    constructor.
  - right. split; [apply test_marker_false; vm_compute; reflexivity|].
    split; vm_compute; reflexivity.
Defined.

Section FeedbackShape.

Lemma removeDoubleStars_keeps (c : cu) (n : nat) : forall s,
  (List.length s <= n)%nat -> c <> 42 -> In c s ->
  In c (removeDoubleStars s).
Proof.
  induction n as [|n IH]; intros s Hn Hc Hin.
  - destruct s; [contradiction | simpl in Hn; lia].
  - destruct s as [|x s]; [contradiction|].
    destruct (N.eq_dec x 42) as [->|Hx].
    + destruct Hin as [E|Hin]; [congruence|].
      destruct s as [|y s]; [contradiction|].
      destruct (N.eq_dec y 42) as [->|Hy].
      * destruct Hin as [E|Hin]; [congruence|].
        cbn [removeDoubleStars]. apply IH; auto. simpl in Hn. lia.
      * assert (E : removeDoubleStars (42 :: y :: s)
                    = 42 :: removeDoubleStars (y :: s)).
        { cbn [removeDoubleStars]. 
          destruct y as [|q]; [reflexivity|].
          repeat (destruct q as [q|q|]; try reflexivity); congruence. }
        refine (eq_ind_r (In c) _ E). right. apply IH; auto. simpl in *. lia.
    + assert (E : removeDoubleStars (x :: s) = x :: removeDoubleStars s).
      { cbn [removeDoubleStars].
        destruct x as [|q]; [reflexivity|].
        repeat (destruct q as [q|q|]; try reflexivity); congruence. }
      refine (eq_ind_r (In c) _ E).
      destruct Hin as [->|Hin]; [left; reflexivity|].
      right. apply IH; auto. simpl in Hn. lia.
Qed.

Lemma feedbackLine_nonempty (t : jsstring) :
  isFeedbackLine t = true -> removeDoubleStars t <> [].
Proof.
  intros H. unfold isFeedbackLine in H. apply orb_true_iff in H.
  assert (K : exists c, c <> 42 /\ In c t).
  { destruct H as [H|H]; apply includes_app in H as [a [b ->]].
    - exists CHECK. split; [discriminate|].
      apply in_or_app. right. left. reflexivity.
    - exists CROSS. split; [discriminate|].
      apply in_or_app. right. left. reflexivity. }
  destruct K as [c [Hc Hin]].
  pose proof (removeDoubleStars_keeps c (List.length t) t (le_n _) Hc Hin) as R.
  destruct (removeDoubleStars t); [contradiction | discriminate].
Qed.

Lemma last_In (A : Type) (l : list A) (d : A) : l <> [] -> In (last l d) l.
Proof.
  induction l as [|x l IH]; intros H; [congruence|].
  destruct l as [|y l]; [left; reflexivity|].
  right. apply IH. discriminate.
Qed.

Lemma existsb_filter_nonempty (A : Type) (f : A -> bool) (l : list A) :
  existsb f l = true <-> filter f l <> [].
Proof.
  induction l as [|x l IH]; simpl; [split; congruence|].
  destruct (f x); simpl; [split; [discriminate | reflexivity] | exact IH].
Qed.

Lemma answered_feedback (p : Props) (d : QuizData) :
  quizData p = Some d -> (isAnswered d = true <-> feedback d <> []).
Proof.
  intros H. apply quizData_inv in H as [_ [_ ->]]. cbn [isAnswered feedback].
  destruct (fold_feedback (split_nl (safeContent p)) scan0) as [Ha Hf].
  unfold scanLines. rewrite Ha, Hf. cbn [s_isAnswered feedbackMessage scan0 orb].
  rewrite existsb_filter_nonempty.
  set (fb := filter isFeedbackOnly (split_nl (safeContent p))).
  assert (Hfb : Forall (fun l => isFeedbackOnly l = true) fb).
  { apply Forall_forall. intros l Hl. apply filter_In in Hl as [_ Hl]. exact Hl. }
  split.
  - intros Hne.
    assert (M : In (last (map (fun l => removeDoubleStars (trim l)) fb) [])
                   (map (fun l => removeDoubleStars (trim l)) fb)).
    { apply last_In. destruct fb; [congruence | discriminate]. }
    apply in_map_iff in M as [l [E Hl]]. rewrite <- E.
    apply feedbackLine_nonempty. rewrite Forall_forall in Hfb.
    specialize (Hfb l Hl). unfold isFeedbackOnly in Hfb.
    destruct (exec re_marker (trim l)); [discriminate | exact Hfb].
  - intros Hne E. rewrite E in Hne. apply Hne. reflexivity.
Qed.

End FeedbackShape.

(** X5: a parsed question is answered exactly when its feedback text is
    not empty, so the stored feedback line is shown exactly for answered
    questions, and the view never shows the instant feedback line and
    the stored feedback line together. *)
Theorem feedback_shown_iff_answered (p : Props) (d : QuizData) :
  quizData p = Some d ->
  (isAnswered d = true <-> feedback d <> [])
  /\ (isAnswered d = true <-> backendMessage d <> None)
  /\ (forall st, instantMessage d st = None \/ backendMessage d = None).
Proof.
  intros H. pose proof (answered_feedback p d H) as A.
  assert (B : feedback d <> [] <-> backendMessage d <> None).
  { unfold backendMessage. destruct (feedback d); simpl; split; congruence. }
  split; [exact A|]. split; [rewrite A; exact B|].
  intros st. unfold instantMessage.
  destruct (isAnswered d) eqn:Ha.
  - left. destruct (instantFeedback st); reflexivity.
  - right. unfold backendMessage. destruct (feedback d) eqn:F; [reflexivity|].
    exfalso. assert (K : false = true) by (apply A; discriminate).
    discriminate.
Qed.

Lemma feedback_shown_iff_answered_witness :
  (isAnswered quiz_question = true <-> feedback quiz_question <> [])
  /\ (isAnswered quiz_question = true <-> backendMessage quiz_question <> None)
  /\ (forall st, instantMessage quiz_question st = None
                 \/ backendMessage quiz_question = None).
Proof.
  apply (feedback_shown_iff_answered (withSend (msg ASSISTANT body_question))
                                     quiz_question).
  vm_compute. reflexivity.
Defined.

(** X6: an option button carries at most one badge; a CORRECT badge sits
    only on a button drawn as correct and a WRONG badge only on a button
    drawn as incorrect; instant badges appear only while the question is
    unanswered and stored badges only once it is answered. *)
Theorem button_badge_consistent (d : QuizData) (st : State) (o : QuizOption) :
  let b := renderOption d st o in
  (List.length (b_badges b) <= 1)%nat
  /\ forall origin badge, In (origin, badge) (b_badges b) ->
       b_status b = match badge with
                    | BadgeCorrect => correct
                    | BadgeWrong => incorrect
                    end
       /\ isAnswered d = match origin with
                         | Instant => false
                         | Backend => true
                         end.
Proof.
  cbv zeta. unfold renderOption, badges, buttonStatus.
  cbn [b_badges b_status].
  destruct (instantFeedback st) as [f|], (isAnswered d);
    cbn [negb andb when app];
    try destruct (str_eqb (letter o) (selectedLetter f));
    try destruct (isCorrect f);
    try destruct (str_eqb (letter o) (correctLetter f));
    destruct (status o);
    cbn [negb andb when app is_status List.length];
    (split; [lia|]);
    intros origin badge H;
    repeat (destruct H as [H|H]; [injection H as <- <-; split; reflexivity|]);
    contradiction.
Qed.

Section WindowFacts.

Import ChatWindow.

(** The pattern of the window is a special case of the parser's guard. *)
Lemma quizQuestion_hasOptions (s : jsstring) :
  test re_quizQuestion s = true -> hasOptions s = true.
Proof.
  unfold test. destruct (exec re_quizQuestion s) as [m|] eqn:E;
    [intros _|discriminate].
  apply search_inv in E as [pre [suf [-> H]]].
  unfold re_quizQuestion in H. cbn [run rep] in H.
  next_char H L t1 HL. next_char H d t2 Hd. next_char H w t3 Hw.
  next_char H c post Hc.
  cbn [mem] in Hd, Hw, Hc. apply N.eqb_eq in Hd, Hw.
  apply negb_true_iff in Hc. subst d w.
  apply hasOptions_spec. exists pre, L, [32], c, post.
  repeat split; auto. discriminate.
Qed.

Lemma lastMessage_snoc (pre : list Message) (m : Message) :
  lastMessage (pre ++ [m]) = Some m.
Proof.
  unfold lastMessage. rewrite length_app. simpl.
  replace (List.length pre + 1 - 1)%nat with (List.length pre) by lia.
  rewrite nth_error_app2 by lia. rewrite Nat.sub_diag. reflexivity.
Qed.

Lemma detectQuiz_snoc (pre : list Message) (m : Message) (st : State) :
  detectQuiz (pre ++ [m]) st = detectQuiz [m] st.
Proof.
  unfold detectQuiz. rewrite lastMessage_snoc.
  change (lastMessage [m]) with (Some m).
  rewrite length_app. simpl.
  destruct (List.length pre); reflexivity.
Qed.

End WindowFacts.

(** X7: the stop control is shown after the effect only if the flag was
    already set and the latest message is not from the assistant, or the
    latest message is an assistant message that passes the guard of the
    message parser, names an Assessment or a Question and does not hold
    the text Quiz Complete. *)
Theorem stop_control_needs_quiz_message
        (messages : list Message) (st : ChatWindow.State) :
  ChatWindow.stopControlShown (ChatWindow.detectQuiz messages st) = true ->
  exists m, ChatWindow.lastMessage messages = Some m
    /\ ((role m <> ASSISTANT /\ ChatWindow.isQuizActive st = true)
        \/ (role m = ASSISTANT
            /\ hasOptions (content m) = true
            /\ (includes (lit "Assessment") (content m) = true
                \/ includes (lit "Question") (content m) = true)
            /\ includes (lit "Quiz Complete") (content m) = false)).
Proof.
  unfold ChatWindow.stopControlShown, ChatWindow.detectQuiz.
  destruct messages as [|x xs]; [discriminate|].
  cbn [List.length Nat.ltb Nat.leb].
  destruct (ChatWindow.lastMessage (x :: xs)) as [m|] eqn:E.
  - intros H. exists m. split; [reflexivity|].
    destruct (role m) eqn:R; cbn [role_eqb] in H;
      try (left; split; [discriminate | exact H]).
    right. cbn [ChatWindow.isQuizActive] in H.
    apply andb_true_iff in H as [H1 H2]. apply andb_true_iff in H1 as [H0 H1].
    apply negb_true_iff in H2. apply orb_true_iff in H1.
    repeat split; auto using quizQuestion_hasOptions.
  - exfalso. unfold ChatWindow.lastMessage in E.
    apply nth_error_None in E. simpl in E. lia.
Qed.

Lemma stop_control_needs_quiz_message_witness :
  exists m, ChatWindow.lastMessage [msg ASSISTANT (lit "Question 1
A. 3
B. 4")] = Some m
    /\ ((role m <> ASSISTANT /\ ChatWindow.isQuizActive ChatWindow.state0 = true)
        \/ (role m = ASSISTANT
            /\ hasOptions (content m) = true
            /\ (includes (lit "Assessment") (content m) = true
                \/ includes (lit "Question") (content m) = true)
            /\ includes (lit "Quiz Complete") (content m) = false)).
Proof.
  apply (stop_control_needs_quiz_message
           [msg ASSISTANT (lit "Question 1
A. 3
B. 4")] ChatWindow.state0).
  vm_compute. reflexivity.
Defined.

(** X8: the effect looks at the latest message only (earlier messages
    make no difference), running it again on the same messages changes
    nothing, and it never takes the success notification back. *)
Theorem detectQuiz_latest_only
        (pre : list Message) (m : Message) (st : ChatWindow.State) :
  ChatWindow.detectQuiz (pre ++ [m]) st = ChatWindow.detectQuiz [m] st
  /\ (forall messages,
        ChatWindow.detectQuiz messages (ChatWindow.detectQuiz messages st)
        = ChatWindow.detectQuiz messages st)
  /\ (forall messages,
        ChatWindow.showSuccess st = true ->
        ChatWindow.showSuccess (ChatWindow.detectQuiz messages st) = true).
Proof.
  split; [apply detectQuiz_snoc|]. split; intros messages.
  - unfold ChatWindow.detectQuiz.
    destruct (0 <? List.length messages)%nat; [|reflexivity].
    destruct (ChatWindow.lastMessage messages) as [x|]; [|reflexivity].
    destruct (role_eqb (role x) ASSISTANT); [|reflexivity].
    cbn [ChatWindow.showSuccess].
    destruct (includes (CHECK :: lit " Correct!") (content x)); reflexivity.
  - intros H. unfold ChatWindow.detectQuiz.
    destruct (0 <? List.length messages)%nat; [|exact H].
    destruct (ChatWindow.lastMessage messages) as [x|]; [|exact H].
    destruct (role_eqb (role x) ASSISTANT); [|exact H].
    cbn [ChatWindow.showSuccess]. rewrite H.
    destruct (includes _ _); reflexivity.
Qed.

Section StorageFacts.
Import Storage.

Lemma str_eqb_neq (a b : jsstring) : a <> b -> str_eqb a b = false.
Proof.
  intros H. destruct (str_eqb a b) eqn:E; [|reflexivity].
  apply str_eqb_eq in E. contradiction.
Qed.

Lemma getItem_removeItem_same (k : jsstring) (s : Storage) :
  getItem k (removeItem k s) = None.
Proof.
  induction s as [|[k' v] s IH]; [reflexivity|].
  unfold removeItem in *. cbn [filter fst].
  destruct (str_eqb k' k) eqn:E; cbn [negb]; [exact IH|].
  cbn [getItem]. rewrite E. exact IH.
Qed.

Lemma getItem_removeItem_other (k k' : jsstring) (s : Storage) :
  k' <> k -> getItem k' (removeItem k s) = getItem k' s.
Proof.
  intros H. induction s as [|[k0 v] s IH]; [reflexivity|].
  unfold removeItem in *. cbn [filter fst].
  destruct (str_eqb k0 k) eqn:E; cbn [negb getItem].
  - apply str_eqb_eq in E. subst k0.
    rewrite (str_eqb_neq k k') by congruence. exact IH.
  - destruct (str_eqb k0 k'); [reflexivity | exact IH].
Qed.

Lemma getItem_setItem_same (k v : jsstring) (s : Storage) :
  getItem k (setItem k v s) = Some v.
Proof. unfold setItem. cbn [getItem]. rewrite str_eqb_refl. reflexivity. Qed.

Lemma getItem_setItem_other (k k' v : jsstring) (s : Storage) :
  k' <> k -> getItem k' (setItem k v s) = getItem k' s.
Proof.
  intros H. unfold setItem. cbn [getItem].
  rewrite (str_eqb_neq k k') by congruence.
  apply getItem_removeItem_other, H.
Qed.

End StorageFacts.

(** X9: in the browser [getUserId] returns a non-empty id that is stored
    under user_id afterwards; every later call returns the same id and
    leaves the store alone, whatever the random source gives, and no
    other key is touched. On the server it returns user_temp and reads
    nothing. *)
Theorem getUserId_stable (rnd : jsstring) (ls : Storage.Storage) :
  let (u, ls') := Utils.getUserId true rnd ls in
  u <> []
  /\ Storage.getItem (lit "user_id") ls' = Some u
  /\ (forall rnd', Utils.getUserId true rnd' ls' = (u, ls'))
  /\ (forall k, k <> lit "user_id" ->
                Storage.getItem k ls' = Storage.getItem k ls)
  /\ Utils.getUserId false rnd ls = (lit "user_temp", ls).
Proof.
  unfold Utils.getUserId. cbn [negb].
  assert (G : forall fresh : jsstring, fresh <> [] ->
    fresh <> []
    /\ Storage.getItem (lit "user_id")
                       (Storage.setItem (lit "user_id") fresh ls) = Some fresh
    /\ (forall rnd',
          match Storage.getItem (lit "user_id")
                  (Storage.setItem (lit "user_id") fresh ls) with
          | Some userId =>
              if truthy userId
              then (userId, Storage.setItem (lit "user_id") fresh ls)
              else (lit "user_" ++ rnd',
                    Storage.setItem (lit "user_id") (lit "user_" ++ rnd')
                      (Storage.setItem (lit "user_id") fresh ls))
          | None =>
              (lit "user_" ++ rnd',
               Storage.setItem (lit "user_id") (lit "user_" ++ rnd')
                 (Storage.setItem (lit "user_id") fresh ls))
          end = (fresh, Storage.setItem (lit "user_id") fresh ls))
    /\ (forall k, k <> lit "user_id" ->
                  Storage.getItem k (Storage.setItem (lit "user_id") fresh ls)
                  = Storage.getItem k ls)
    /\ (lit "user_temp", ls) = (lit "user_temp", ls)).
  { intros fresh Hf. split; [exact Hf|]. split; [apply getItem_setItem_same|].
    split; [|split; [|reflexivity]].
    - intros rnd'. rewrite getItem_setItem_same.
      destruct fresh; [congruence | reflexivity].
    - intros k Hk. apply getItem_setItem_other, Hk. }
  destruct (Storage.getItem (lit "user_id") ls) as [[|c u]|] eqn:E;
    cbn [truthy].
  - apply G. discriminate.
  - split; [discriminate|]. split; [exact E|]. split; [|split; [|reflexivity]].
    + intros rnd'. rewrite E. reflexivity.
    + reflexivity.
  - apply G. discriminate.
Qed.

(** X10: after a login or signup whose response carries a non-empty
    token, the session is authenticated, every request gets the header
    Bearer <token>, and the stored user is the one of the response;
    a response with an empty token stores nothing. *)
Theorem session_stored (token userJson : jsstring) (ls : Storage.Storage) :
  token <> [] ->
  let ls' := Api.storeSession token userJson ls in
  Api.isAuthenticated ls' = true
  /\ Api.authorization ls' = Some (lit "Bearer " ++ token)
  /\ Api.getCurrentUser ls'
     = (if truthy userJson then Some userJson else None)
  /\ Api.storeSession [] userJson ls = ls.
Proof.
  intros H. cbv zeta. unfold Api.storeSession, Api.isAuthenticated,
    Api.authorization, Api.getCurrentUser.
  destruct token as [|c t]; [congruence|]. cbn [truthy].
  rewrite getItem_setItem_same.
  rewrite getItem_setItem_other by discriminate.
  rewrite getItem_setItem_same. repeat split.
Qed.

Lemma session_stored_witness :
  let ls' := Api.storeSession (lit "t0k3n") (lit "{}") [] in
  Api.isAuthenticated ls' = true
  /\ Api.authorization ls' = Some (lit "Bearer " ++ lit "t0k3n")
  /\ Api.getCurrentUser ls' = (if truthy (lit "{}") then Some (lit "{}") else None)
  /\ Api.storeSession [] (lit "{}") [] = [].
Proof.
  apply (session_stored (lit "t0k3n") (lit "{}") []). discriminate.
Defined.

(** X11: after [logout] the session is not authenticated, no request
    gets an Authorization header, there is no current user, and every
    other key of the store (the user id of [getUserId] among them) is as
    before. *)
Theorem logout_clears_session (ls : Storage.Storage) :
  Api.isAuthenticated (Api.logout ls) = false
  /\ Api.authorization (Api.logout ls) = None
  /\ Api.getCurrentUser (Api.logout ls) = None
  /\ (forall k, k <> lit "auth_token" -> k <> lit "user" ->
                Storage.getItem k (Api.logout ls) = Storage.getItem k ls).
Proof.
  unfold Api.logout, Api.isAuthenticated, Api.authorization,
    Api.getCurrentUser.
  rewrite getItem_removeItem_other by discriminate.
  rewrite !getItem_removeItem_same. repeat split.
  intros k H1 H2. rewrite !getItem_removeItem_other by assumption.
  reflexivity.
Qed.

(** X12: the Send handler sends at most one message, and only text that
    is not blank: when the button is enabled it sends the trimmed input
    (not empty, no white space at either end) and clears the input;
    when the button is disabled (the component is disabled or the input
    is blank) it does nothing. The Enter key without Shift does the
    same and every other key nothing. *)
Theorem handleSend_sends_trimmed (disabled : bool) (w : ChatInput.World) :
  (ChatInput.sendDisabled disabled w = true ->
   ChatInput.handleSend disabled w = w)
  /\ (ChatInput.sendDisabled disabled w = false ->
      let t := trim (ChatInput.message w) in
      ChatInput.handleSend disabled w
      = ChatInput.mkWorld [] (ChatInput.sent w ++ [t])
      /\ t <> [] /\ trim t = t
      /\ isSpace (hd 0 t) = false /\ isSpace (last t 0) = false)
  /\ (forall key shiftKey,
        ChatInput.handleKeyPress disabled key shiftKey w
        = if str_eqb key (lit "Enter") && negb shiftKey
          then ChatInput.handleSend disabled w else w)
  /\ ChatInput.handleSend disabled
       (ChatInput.handleSend disabled w)
     = ChatInput.handleSend disabled w.
Proof.
  pose proof (trim_idem (ChatInput.message w)) as Hi.
  pose proof (trim_ends (ChatInput.message w)) as [Hh Hl].
  unfold ChatInput.sendDisabled, ChatInput.handleKeyPress,
    ChatInput.handleSend.
  destruct disabled, (trim (ChatInput.message w)) as [|c t] eqn:E;
    cbn [orb negb andb truthy ChatInput.message];
    rewrite ?E; cbn [truthy andb negb];
    (split; [intros H; try discriminate H; reflexivity|]);
    (split; [intros H; try discriminate H|]);
    try (split; [intros key shiftKey; reflexivity | reflexivity]).
  cbv zeta. split; [reflexivity|]. split; [discriminate|]. auto.
Qed.

Section TruncateFacts.

Lemma firstn_app_prefix (A : Type) (n : nat) (l r : list A) :
  (n <= List.length l)%nat -> firstn n (firstn n l ++ r) = firstn n l.
Proof.
  intros H. rewrite firstn_app, firstn_firstn, Nat.min_id.
  rewrite length_firstn, Nat.min_l by exact H.
  rewrite Nat.sub_diag. cbn [firstn]. apply app_nil_r.
Qed.

End TruncateFacts.

(** X13: [truncateText] returns a text of at most maxLength code units
    unchanged; otherwise it returns the first maxLength code units and
    three dots. In both cases the result agrees with the text on the
    first maxLength code units and, for a maxLength that is not
    negative, has at most maxLength + 3 code units. *)
Theorem truncateText_bound (text : jsstring) (maxLength : Z) :
  let r := Utils.truncateText text maxLength in
  ((Z.of_nat (List.length text) <= maxLength)%Z -> r = text)
  /\ firstn (Z.to_nat maxLength) r = firstn (Z.to_nat maxLength) text
  /\ ((0 <= maxLength)%Z ->
      (Z.of_nat (List.length r) <= maxLength + 3)%Z)
  /\ ((maxLength < Z.of_nat (List.length text))%Z ->
      endsWith (lit "...") r = true
      /\ List.length r = (Z.to_nat maxLength + 3)%nat).
Proof.
  cbv zeta. unfold Utils.truncateText.
  destruct (Z.leb_spec (Z.of_nat (List.length text)) maxLength) as [H|H].
  - repeat split; auto; lia.
  - split; [lia|]. split; [apply firstn_app_prefix; lia|].
    assert (L : List.length (firstn (Z.to_nat maxLength) text ++ lit "...")
                = (Z.to_nat maxLength + 3)%nat).
    { rewrite length_app, length_firstn, Nat.min_l by lia. reflexivity. }
    split; [intros; rewrite L; lia|]. intros _. split; [|exact L].
    unfold endsWith. rewrite rev_app_distr. reflexivity.
Qed.

Example truncate_title :
  Utils.truncateText (lit "Introduction to Algorithms and Data Structures") 30
  = lit "Introduction to Algorithms and...".
Proof. vm_compute. reflexivity. Qed.

Section ClockFacts.

Lemma clockFields_in (h m : N) : h < 24 -> m < 60 -> In (h, m) clockFields.
Proof.
  intros Hh Hm. unfold clockFields. apply in_prod.
  - apply in_map_iff. exists (N.to_nat h). split; [apply N2Nat.id|].
    apply in_seq. lia.
  - apply in_map_iff. exists (N.to_nat m). split; [apply N2Nat.id|].
    apply in_seq. lia.
Qed.

Lemma clock_all_ok : forallb clock_ok clockFields = true.
Proof. vm_compute. reflexivity. Qed.

Lemma clock_ok_at (h m : N) : h < 24 -> m < 60 -> clock_ok (h, m) = true.
Proof.
  intros Hh Hm. pose proof clock_all_ok as A.
  rewrite forallb_forall in A. apply A, clockFields_in; assumption.
Qed.

Lemma readClock_format (h m : N) :
  h < 24 -> m < 60 -> readClock (Utils.formatClock (Some (h, m))) = Some (h, m).
Proof.
  intros Hh Hm. pose proof (clock_ok_at h m Hh Hm) as A.
  unfold clock_ok in A. cbv zeta in A.
  apply andb_true_iff in A as [_ A].
  destruct (readClock (Utils.formatClock (Some (h, m)))) as [[h' m']|];
    [|discriminate].
  cbn [fst snd] in A. apply andb_true_iff in A as [A1 A2].
  apply N.eqb_eq in A1, A2. congruence.
Qed.

End ClockFacts.

(** X14: for the hours 0 to 23 and the minutes 0 to 59 the clock text of
    [formatDate] has 7 or 8 code units, ends with AM exactly before noon
    and with PM otherwise, and two different times of the day never get
    the same text; an invalid date gives the text 12:NaN AM. *)
Theorem formatClock_faithful (h m : N) :
  h < 24 -> m < 60 ->
  let s := Utils.formatClock (Some (h, m)) in
  (List.length s = 7%nat \/ List.length s = 8%nat)
  /\ (endsWith (lit " AM") s = true <-> h < 12)
  /\ (endsWith (lit " PM") s = true <-> 12 <= h)
  /\ (forall h' m', h' < 24 -> m' < 60 ->
        Utils.formatClock (Some (h', m')) = s -> h' = h /\ m' = m)
  /\ Utils.formatClock None = lit "12:NaN AM".
Proof.
  intros Hh Hm. cbv zeta. pose proof (clock_ok_at h m Hh Hm) as A.
  unfold clock_ok in A. cbv zeta in A. cbn [fst] in A.
  apply andb_true_iff in A as [A _]. apply andb_true_iff in A as [A A3].
  apply andb_true_iff in A as [A1 A2].
  apply eqb_prop in A2, A3. rewrite A2, A3, N.ltb_lt, N.leb_le.
  split; [|split; [tauto|split; [tauto|split; [|reflexivity]]]].
  - apply orb_true_iff in A1 as [A1|A1]; apply Nat.eqb_eq in A1; auto.
  - intros h' m' Hh' Hm' E.
    pose proof (readClock_format h m Hh Hm) as R.
    pose proof (readClock_format h' m' Hh' Hm') as R'.
    rewrite E, R in R'. injection R' as -> ->. auto.
Qed.

Lemma formatClock_faithful_witness :
  let s := Utils.formatClock (Some (0, 5)) in
  (List.length s = 7%nat \/ List.length s = 8%nat)
  /\ (endsWith (lit " AM") s = true <-> 0 < 12)
  /\ (endsWith (lit " PM") s = true <-> 12 <= 0)
  /\ (forall h' m', h' < 24 -> m' < 60 ->
        Utils.formatClock (Some (h', m')) = s -> h' = 0 /\ m' = 5)
  /\ Utils.formatClock None = lit "12:NaN AM".
Proof.
  apply (formatClock_faithful 0 5); reflexivity.
Defined.

Example midnight_and_noon :
  Utils.formatClock (Some (0, 5)) = lit "12:05 AM"
  /\ Utils.formatClock (Some (12, 0)) = lit "12:00 PM"
  /\ Utils.formatClock (Some (23, 59)) = lit "11:59 PM".
Proof. vm_compute. repeat split. Qed.

Section UploadFacts.

Lemma endsWith_app (p s : jsstring) :
  endsWith p s = true <-> exists base, s = base ++ p.
Proof.
  unfold endsWith. rewrite startsWith_app. split.
  - intros [r E]. exists (rev r).
    rewrite <- (rev_involutive s), E, rev_app_distr, rev_involutive.
    reflexivity.
  - intros [base ->]. exists (rev base). apply rev_app_distr.
Qed.

Lemma snoc_neq (A : Type) (l : list A) (x : A) : l ++ [x] <> l.
Proof.
  intros E. apply (f_equal (@List.length A)) in E.
  rewrite length_app in E. simpl in E. lia.
Qed.

End UploadFacts.

(** X15: choosing a file sends the message quiz pdf exactly when a file
    was chosen, its name ends with .pdf and the upload came back ok
    with a JSON body; the message is then sent once and the file name is
    remembered. An upload request is made exactly for a name that ends
    with .pdf, and after a request the component is never left
    uploading; a failed upload leaves an error text. *)
Theorem upload_then_quiz_pdf
        (file : option jsstring) (outcome : FileUpload.Outcome)
        (w : FileUpload.World) :
  let w' := FileUpload.handleFileChange file outcome w in
  let accepted :=
    exists base, file = Some (base ++ lit ".pdf") in
  (FileUpload.sent w' <> FileUpload.sent w <->
   accepted /\ outcome = FileUpload.Ok)
  /\ (accepted /\ outcome = FileUpload.Ok ->
      FileUpload.sent w' = FileUpload.sent w ++ [lit "quiz pdf"]
      /\ FileUpload.uploadedPdf w' = file
      /\ FileUpload.error w' = None)
  /\ (FileUpload.requests w' <> FileUpload.requests w <-> accepted)
  /\ (accepted -> FileUpload.uploading w' = false
                  /\ FileUpload.requests w' = S (FileUpload.requests w))
  /\ (accepted -> outcome <> FileUpload.Ok ->
      FileUpload.error w' <> None
      /\ FileUpload.uploadedPdf w' = FileUpload.uploadedPdf w).
Proof.
  cbv zeta. unfold FileUpload.handleFileChange.
  destruct file as [name|].
  - destruct (endsWith (lit ".pdf") name) eqn:E; cbn [negb].
    + assert (A : exists base, Some name = Some (base ++ lit ".pdf")).
      { apply endsWith_app in E as [base ->]. eauto. }
      destruct outcome;
        cbn [FileUpload.handleUploadSuccess FileUpload.sent
             FileUpload.uploadedPdf FileUpload.error FileUpload.requests
             FileUpload.uploading];
        repeat split; auto; try congruence; try tauto;
        try (intros _; apply snoc_neq);
        try (intros [_ K]; discriminate K);
        try (intros K; exfalso; apply K; reflexivity);
        try (intros _; apply Nat.neq_succ_diag_l);
        try discriminate;
        match goal with H : _ /\ _ = FileUpload.Ok |- _ =>
          destruct H as [_ H]; discriminate H end.
    + assert (A : ~ exists base, Some name = Some (base ++ lit ".pdf")).
      { intros [base K]. injection K as ->.
        assert (T : endsWith (lit ".pdf") (base ++ lit ".pdf") = true)
          by (apply endsWith_app; eauto).
        congruence. }
      cbn [FileUpload.sent FileUpload.requests FileUpload.uploading
           FileUpload.error FileUpload.uploadedPdf].
      repeat split; try tauto; try (intros K; exfalso; apply K; reflexivity);
        try (intros [K _]; contradiction).
  - assert (A : ~ exists base, @None jsstring = Some (base ++ lit ".pdf"))
      by (intros [base K]; discriminate K).
    repeat split; try tauto; try (intros K; exfalso; apply K; reflexivity);
      try (intros [K _]; contradiction).
Qed.

Example upper_case_extension_refused :
  FileUpload.handleFileChange (Some (lit "notes.PDF")) FileUpload.Ok
    (FileUpload.mkWorld false None None [] 0)
  = FileUpload.mkWorld false (Some (lit "Please upload a PDF file")) None [] 0.
Proof. vm_compute. reflexivity. Qed.

(** X16: after a successful delete the chat is neither in the list nor
    active, every other chat is kept in its place, and the messages are
    cleared exactly when the deleted chat was the active one; a delete
    that fails changes nothing. Either way one delete call is made. *)
Theorem handleDeleteChat_removes
        (chatId : jsstring) (ok : bool) (st : Page.State) :
  let (st', calls) := Page.handleDeleteChat chatId ok st in
  calls = [Page.DeleteChat chatId]
  /\ (ok = false -> st' = st)
  /\ (ok = true ->
      ~ In chatId (map Chat.id (Page.chats st'))
      /\ Page.activeChat st' <> Some chatId
      /\ (forall l1 c l2, Page.chats st = l1 ++ c :: l2 ->
            Chat.id c <> chatId ->
            Page.chats st'
            = filter (fun x => negb (str_eqb (Chat.id x) chatId)) l1
              ++ c :: filter (fun x => negb (str_eqb (Chat.id x) chatId)) l2)
      /\ (Page.activeChat st = Some chatId ->
          Page.activeChat st' = None /\ Page.messages st' = [])
      /\ (Page.activeChat st <> Some chatId ->
          Page.activeChat st' = Page.activeChat st
          /\ Page.messages st' = Page.messages st)).
Proof.
  unfold Page.handleDeleteChat. split; [reflexivity|].
  destruct ok; (split; [intros H; try discriminate H; try reflexivity|]);
    intros H; try discriminate H.
  set (keep := fun x => negb (str_eqb (Chat.id x) chatId)).
  assert (K : Page.chats
                (if Page.isActive st chatId
                 then Page.mkState (filter keep (Page.chats st)) None []
                        (Page.isLoading st) (Page.userId st)
                        (Page.isAuthenticated st)
                 else Page.mkState (filter keep (Page.chats st))
                        (Page.activeChat st) (Page.messages st)
                        (Page.isLoading st) (Page.userId st)
                        (Page.isAuthenticated st))
              = filter keep (Page.chats st))
    by (destruct (Page.isActive st chatId); reflexivity).
  assert (A : Page.isActive st chatId = true <-> Page.activeChat st = Some chatId).
  { unfold Page.isActive. destruct (Page.activeChat st) as [a|].
    - rewrite str_eqb_eq. split; congruence.
    - split; discriminate. }
  split; [|split; [|split; [|split]]].
  - rewrite K. intros Hin. apply in_map_iff in Hin as [c [E Hc]].
    apply filter_In in Hc as [_ Hc]. unfold keep in Hc.
    rewrite E, str_eqb_refl in Hc. discriminate.
  - destruct (Page.isActive st chatId); cbn [Page.activeChat];
      [discriminate|].
    intros N. apply A in N. discriminate N.
  - intros l1 c l2 E Hc. rewrite K, E, filter_app. cbn [filter].
    unfold keep at 2. rewrite (str_eqb_neq _ _ Hc). reflexivity.
  - intros E. apply A in E. rewrite E. split; reflexivity.
  - intros N. destruct (Page.isActive st chatId);
      [exfalso; apply N, A; reflexivity | split; reflexivity].
Qed.

Section SendFacts.

Lemma loadChats_view (f : option (list Chat.t)) (st : Page.State) :
  Page.messages (fst (Page.loadChats f st)) = Page.messages st
  /\ Page.activeChat (fst (Page.loadChats f st)) = Page.activeChat st
  /\ snd (Page.loadChats f st) = [Page.GetUserChats (Page.userId st)].
Proof. destruct f; repeat split. Qed.

End SendFacts.

(** X17: without an active chat [handleSendMessage] sends nothing: it
    asks for a new chat and the typed content is dropped; with an active
    chat it makes exactly one send call, for that chat and that content,
    as its first call, and the loading flag is off when it returns,
    whatever the calls come to. *)
Theorem handleSendMessage_routing
        (content : jsstring) (o : Page.Outcomes) (st : Page.State) :
  let (st', calls) := Page.handleSendMessage content o st in
  (truthy_opt (Page.activeChat st) = false ->
   calls = [Page.CreateChat (Page.userId st) (lit "New Chat")]
   /\ Page.isLoading st' = Page.isLoading st
   /\ Page.messages st'
      = match Page.created o with Some _ => [] | None => Page.messages st end)
  /\ (forall chat, Page.activeChat st = Some chat -> chat <> [] ->
        exists rest, calls = Page.SendMessage chat content :: rest
                     /\ existsb Page.isSendMessage rest = false
                     /\ Page.isLoading st' = false).
Proof.
  unfold Page.handleSendMessage.
  destruct (Page.activeChat st) as [[|c a]|] eqn:E; cbn [truthy_opt truthy].
  - unfold Page.handleNewChat. split.
    + intros _. destruct (Page.created o); repeat split.
    + intros chat H N. congruence.
  - destruct (Page.sendResult o) as [err|response].
    + destruct (Page.errorText err); (split; [discriminate|]);
        intros chat H _; injection H as <-; exists []; repeat split.
    + destruct (Page.isFeedback response);
        [destruct (Page.fetchedMessages o)|];
        destruct (Page.fetchedChats o);
        (split; [discriminate|]); intros chat H _; injection H as <-;
        eexists; repeat split.
  - unfold Page.handleNewChat. split.
    + intros _. destruct (Page.created o); repeat split.
    + intros chat H. discriminate H.
Qed.

Section ErrorFacts.

Lemma entryTexts_none (es : list Page.Entry) :
  Page.entryTexts es = None <-> existsb Page.throwsEntry es = true.
Proof.
  induction es as [|e es IH]; simpl; [split; discriminate|].
  destruct e as [|[|l|] m]; simpl; try tauto.
  - destruct (Page.entryTexts es); simpl.
    + split; [discriminate|]. intros H. apply IH in H. discriminate H.
    + split; [intros _; apply IH; reflexivity | reflexivity].
  - destruct (Page.entryTexts es); simpl.
    + split; [discriminate|]. intros H. apply IH in H. discriminate H.
    + split; [intros _; apply IH; reflexivity | reflexivity].
Qed.

Lemma errorText_none (error : Page.ApiError) :
  Page.errorText error = None
  <-> exists es, Page.detail error = Some (Page.DetailArray es)
                 /\ existsb Page.throwsEntry es = true.
Proof.
  unfold Page.errorText. split.
  - destruct (Page.detail error) as [[es|s|[|] json]|]; try discriminate.
    destruct (Page.entryTexts es) eqn:E; [discriminate|]. intros _.
    exists es. split; [reflexivity | apply entryTexts_none, E].
  - intros [es [-> H]]. apply entryTexts_none in H. rewrite H. reflexivity.
Qed.

Lemma errorText_falsy (error : Page.ApiError) :
  Page.falsyDetail (Page.detail error) = true ->
  Page.errorText error
  = Some (if truthy (Page.message error) then Page.message error
          else lit "Unknown error occurred").
Proof.
  unfold Page.errorText, Page.orDefault.
  destruct (Page.detail error) as [[es|s|[|] json]|]; simpl;
    try discriminate; try reflexivity.
  destruct (truthy s); [discriminate | reflexivity].
Qed.

End ErrorFacts.

(** X18: when the send call fails, the chat list and the active chat
    stay as they are and the loading flag is off. When the text of the
    error can be formed, every message shown before is kept and exactly
    one message is added after them: an assistant message of the active
    chat whose content is "Error: " and that text; the message the user
    typed is not added. The text is the detail itself when the detail is
    a non-empty string; it is the message of the error, or "Unknown
    error occurred" when that is empty, when the detail is absent or
    falsy (an empty string, 0, false, null). It cannot be formed exactly
    when the detail is a list with an entry that is null or whose loc is
    truthy and not a list: the catch block throws there and no message
    is added. *)
Theorem handleSendMessage_error
        (typed chat : jsstring) (o : Page.Outcomes) (st : Page.State)
        (error : Page.ApiError) :
  Page.activeChat st = Some chat -> chat <> [] ->
  Page.sendResult o = inl error ->
  let st' := fst (Page.handleSendMessage typed o st) in
  Page.chats st' = Page.chats st
  /\ Page.activeChat st' = Page.activeChat st
  /\ Page.isLoading st' = false
  /\ match Page.errorText error with
     | Some text =>
         exists m, Page.messages st' = Page.messages st ++ [m]
           /\ role m = ASSISTANT /\ chat_id m = chat
           /\ content m = lit "Error: " ++ text
     | None => Page.messages st' = Page.messages st
     end
  /\ (forall s, Page.detail error = Some (Page.DetailString s) -> s <> [] ->
                Page.errorText error = Some s)
  /\ (Page.falsyDetail (Page.detail error) = true ->
      Page.errorText error
      = Some (if truthy (Page.message error) then Page.message error
              else lit "Unknown error occurred"))
  /\ (Page.errorText error = None
      <-> exists es, Page.detail error = Some (Page.DetailArray es)
                     /\ existsb Page.throwsEntry es = true).
Proof.
  intros Ha Hne He. cbv zeta. unfold Page.handleSendMessage.
  rewrite Ha, He. destruct chat as [|c a]; [congruence|].
  assert (S : forall s, Page.detail error = Some (Page.DetailString s) ->
                        s <> [] -> Page.errorText error = Some s).
  { intros s Hd Hs. unfold Page.errorText. rewrite Hd.
    destruct s; [congruence | reflexivity]. }
  destruct (Page.errorText error) as [text|] eqn:T;
    cbn [fst Page.messages Page.setLoading Page.setMessages
         Page.chats Page.activeChat Page.isLoading].
  - repeat split; try exact Ha; try discriminate.
    + eexists. repeat split.
    + exact S.
    + intros F. rewrite <- T. apply errorText_falsy, F.
    + intros [es [Hd Hx]]. rewrite <- T. apply errorText_none.
      exists es. split; assumption.
  - repeat split; try exact Ha.
    + exact S.
    + intros F. rewrite <- T. apply errorText_falsy, F.
    + intros _. apply errorText_none, T.
Qed.

Lemma handleSendMessage_error_witness :
  let st := Page.mkState [] (Some (lit "c1")) [msg USER (lit "hi")]
                         false (lit "u1") true in
  let error := Page.mkApiError (Some (Page.DetailOther false (lit "0")))
                               (lit "Request failed") in
  let o := Page.mkOutcomes None (inl error) None None (lit "17") (lit "now") in
  let st' := fst (Page.handleSendMessage (lit "B") o st) in
  Page.chats st' = Page.chats st
  /\ Page.activeChat st' = Page.activeChat st
  /\ Page.isLoading st' = false
  /\ match Page.errorText error with
     | Some text =>
         exists m, Page.messages st' = Page.messages st ++ [m]
           /\ role m = ASSISTANT /\ chat_id m = lit "c1"
           /\ content m = lit "Error: " ++ text
     | None => Page.messages st' = Page.messages st
     end
  /\ (forall s, Page.detail error = Some (Page.DetailString s) -> s <> [] ->
                Page.errorText error = Some s)
  /\ (Page.falsyDetail (Page.detail error) = true ->
      Page.errorText error
      = Some (if truthy (Page.message error) then Page.message error
              else lit "Unknown error occurred"))
  /\ (Page.errorText error = None
      <-> exists es, Page.detail error = Some (Page.DetailArray es)
                     /\ existsb Page.throwsEntry es = true).
Proof.
  apply (handleSendMessage_error (lit "B") (lit "c1")
           (Page.mkOutcomes None
              (inl (Page.mkApiError
                      (Some (Page.DetailOther false (lit "0")))
                      (lit "Request failed")))
              None None (lit "17") (lit "now"))
           (Page.mkState [] (Some (lit "c1")) [msg USER (lit "hi")]
                         false (lit "u1") true)
           (Page.mkApiError (Some (Page.DetailOther false (lit "0")))
                            (lit "Request failed")));
    [reflexivity | discriminate | reflexivity].
Defined.

Example error_texts :
  Page.errorText (Page.mkApiError (Some (Page.DetailOther false (lit "0")))
                                  (lit "Request failed"))
  = Some (lit "Request failed")
  /\ Page.errorText (Page.mkApiError (Some (Page.DetailOther true (lit "{}")))
                                     (lit "Request failed"))
     = Some (lit "{}")
  /\ Page.errorText
       (Page.mkApiError
          (Some (Page.DetailArray
                   [Page.EntryError (Page.LocList [lit "body"; lit "content"])
                                    (lit "field required");
                    Page.EntryError Page.LocAbsent []]))
          (lit "Request failed"))
     = Some (lit "body.content: field required; field: validation error")
  /\ Page.errorText
       (Page.mkApiError
          (Some (Page.DetailArray
                   [Page.EntryError Page.LocAbsent (lit "bad"); Page.EntryNull]))
          (lit "Request failed"))
     = None.
Proof. vm_compute. repeat split. Qed.

(** X19: a send never brings a FEEDBACK: message on the screen: when no
    displayed message starts with FEEDBACK: and the message the server
    echoes for the user does not either, then after [handleSendMessage]
    no displayed message does, whatever the calls come to. *)
Theorem handleSendMessage_keeps_feedback_hidden
        (typed : jsstring) (o : Page.Outcomes) (st : Page.State) :
  Forall (fun m => keep m = true) (Page.messages st) ->
  (forall response, Page.sendResult o = inr response ->
                    keep (Home.user_message response) = true) ->
  Forall (fun m => keep m = true)
         (Page.messages (fst (Page.handleSendMessage typed o st))).
Proof.
  intros Hm Hu. unfold Page.handleSendMessage.
  assert (N : Forall (fun m => keep m = true)
                (Page.messages (fst (Page.handleNewChat (Page.created o) st)))).
  { unfold Page.handleNewChat. destruct (Page.created o); [constructor|exact Hm]. }
  destruct (Page.activeChat st) as [[|c a]|]; try exact N.
  destruct (Page.sendResult o) as [err|response] eqn:R.
  - destruct (Page.errorText err);
      cbn [fst Page.messages Page.setLoading Page.setMessages]; [|exact Hm].
    apply Forall_app. split; [exact Hm|]. constructor; [|constructor].
    reflexivity.
  - specialize (Hu response eq_refl).
    assert (L : forall f s, Page.messages
                  (Page.setLoading false (fst (Page.loadChats f s)))
                = Page.messages s) by (intros [l|] s; reflexivity).
    destruct (Page.isFeedback response) eqn:F.
    + unfold Page.loadMessages.
      destruct (Page.loadChats _ _) as [st2 r2] eqn:C.
      cbn [fst]. replace st2 with (fst (Page.loadChats (Page.fetchedChats o)
        (Page.mkState (Page.chats st) (Page.activeChat st)
           (Home.loadMessages (Page.fetchedMessages o) (Page.messages st))
           (Page.isLoading st) (Page.userId st) (Page.isAuthenticated st))))
        by (rewrite C; reflexivity).
      rewrite L. cbn [Page.messages].
      destruct (Page.fetchedMessages o) as [l|]; cbn [Home.loadMessages];
        [|exact Hm].
      rewrite sanitized_filter. apply Forall_forall. intros m Hin.
      apply filter_In in Hin as [_ Hin]. exact Hin.
    + destruct (Page.loadChats _ _) as [st2 r2] eqn:C.
      cbn [fst]. replace st2 with (fst (Page.loadChats (Page.fetchedChats o)
        (Page.setMessages (Page.messages st ++
           [Home.user_message response; Home.bot_message response]) st)))
        by (rewrite C; reflexivity).
      rewrite L. cbn [Page.messages Page.setMessages].
      apply Forall_app. split; [exact Hm|].
      constructor; [exact Hu|]. constructor; [|constructor].
      unfold Page.isFeedback in F. apply orb_false_iff in F as [F _].
      unfold keep. rewrite F. reflexivity.
Qed.

Lemma handleSendMessage_keeps_feedback_hidden_witness :
  let st := Page.mkState [] (Some (lit "c1")) [msg USER (lit "hi")]
                         false (lit "u1") true in
  let o := Page.mkOutcomes None
             (inr (Home.mkResponse (msg USER (lit "B")) feedback_message true))
             (Some [msg USER (lit "B"); feedback_message;
                    msg ASSISTANT body_question])
             None (lit "17") (lit "now") in
  Forall (fun m => keep m = true)
         (Page.messages (fst (Page.handleSendMessage (lit "B") o st))).
Proof.
  apply (handleSendMessage_keeps_feedback_hidden (lit "B")
           (Page.mkOutcomes None
              (inr (Home.mkResponse (msg USER (lit "B")) feedback_message true))
              (Some [msg USER (lit "B"); feedback_message;
                     msg ASSISTANT body_question])
              None (lit "17") (lit "now"))
           (Page.mkState [] (Some (lit "c1")) [msg USER (lit "hi")]
                         false (lit "u1") true)).
  - repeat constructor.
  - intros response H. injection H as <-. reflexivity.
Defined.

Section OverlayFacts.

Import Instance.

Lemma click_cases_letter (p : Props) (d : QuizData) (o : QuizOption)
      (w : World) :
  exec_handler (clickOption p d o) w = w
  \/ (correctAnswerLetter d <> []
      /\ exec_handler (clickOption p d o) w
         = mkWorld (mkState (Some (letter o))
                      (Some (mkInstant (letter o)
                               (str_eqb (letter o) (correctAnswerLetter d))
                               (correctAnswerLetter d))))
                   (sent w ++ [letter o])).
Proof.
  destruct (correctAnswerLetter d) as [|c l] eqn:Hc.
  - left. apply click_no_letter, Hc.
  - destruct (click_cases p d o w) as [E | [_ [_ E]]]; [left; exact E|].
    right. rewrite <- Hc. split; [congruence | exact E].
Qed.

Lemma overlay_sound_step (i : Instance) (e : Event) :
  overlay_sound (world i) -> overlay_sound (world (step i e)).
Proof.
  intros H. destruct e as [n|m]; cbn [step].
  - destruct (quizData (props i)) as [d|]; [|exact H].
    destruct (nth_error (options d) n) as [o|]; [|exact H].
    cbn [world].
    destruct (click_cases_letter (props i) d o (world i)) as [-> | [Hc ->]];
      [exact H|].
    intros f Hf. cbn [cells instantFeedback selectedAnswer] in *.
    injection Hf as <-. cbn [isCorrect selectedLetter correctLetter]. auto.
  - cbn [world]. destruct (dep_eqb _ (lastDep i)); [exact H|].
    rewrite reset_cases. destruct (dep_eqb _ (Some true)); [|exact H].
    intros f Hf. discriminate Hf.
Qed.

Lemma locked_step (i : Instance) (e : Event) :
  selectedAnswer (cells (world i)) <> None ->
  selectedAnswer (cells (world (step i e))) = selectedAnswer (cells (world i))
  /\ sent (world (step i e)) = sent (world i).
Proof.
  intros H. destruct e as [n|m]; cbn [step].
  - destruct (quizData (props i)) as [d|]; [|auto].
    destruct (nth_error (options d) n) as [o|]; [|auto].
    cbn [world]. rewrite click_locked by exact H. auto.
  - cbn [world]. destruct (dep_eqb _ (lastDep i)); [auto|].
    rewrite reset_cases. destruct (dep_eqb _ (Some true)); auto.
Qed.

Lemma locked_run (es : list Event) : forall i,
  selectedAnswer (cells (world i)) <> None ->
  selectedAnswer (cells (world (run_events i es)))
  = selectedAnswer (cells (world i))
  /\ sent (world (run_events i es)) = sent (world i).
Proof.
  induction es as [|e es IH]; intros i H; [auto|].
  cbn [run_events fold_left]. destruct (locked_step i e H) as [E1 E2].
  destruct (IH (step i e)) as [F1 F2]; [rewrite E1; exact H|].
  unfold run_events in *. rewrite F1, F2, E1, E2. auto.
Qed.

Lemma overlay_sound_run (es : list Event) : forall i,
  overlay_sound (world i) -> overlay_sound (world (run_events i es)).
Proof.
  induction es as [|e es IH]; intros i H; [exact H|].
  apply (IH (step i e)), overlay_sound_step, H.
Qed.

Lemma overlay_sound_mount (p : Props) : overlay_sound (world (mount p)).
Proof.
  unfold mount. cbn [world]. rewrite reset_cases.
  destruct (dep_eqb _ _); intros f Hf; discriminate Hf.
Qed.

End OverlayFacts.

(** X21: in every state a mounted message reaches by clicks and reloads,
    an overlay carries the verdict (selected letter = hidden letter) for
    a hidden letter that is not empty, and the recorded selection is its
    selected letter; and a recorded selection is never released: after
    it, no click or reload changes the selection or sends anything, and
    every option button of whatever question is displayed is disabled. *)
Theorem overlay_sound_and_lock_permanent
        (p : Props) (es es' : list Instance.Event) :
  let i := Instance.run_events (Instance.mount p) es in
  let j := Instance.run_events i es' in
  overlay_sound (Instance.world i)
  /\ (selectedAnswer (cells (Instance.world i)) <> None ->
      selectedAnswer (cells (Instance.world j))
      = selectedAnswer (cells (Instance.world i))
      /\ sent (Instance.world j) = sent (Instance.world i)
      /\ forall d o, b_disabled (renderOption d (cells (Instance.world j)) o)
                     = true).
Proof.
  cbv zeta. split.
  - apply overlay_sound_run, overlay_sound_mount.
  - intros H.
    destruct (locked_run es' (Instance.run_events (Instance.mount p) es) H)
      as [E1 E2].
    split; [exact E1|]. split; [exact E2|].
    intros d o. cbn [renderOption b_disabled]. rewrite E1.
    destruct (selectedAnswer _); [|congruence].
    cbn [isNull negb]. apply orb_true_r.
Qed.
